(** * Room registry and message fan-out of the chat server (src/server.js)

    A shallow embedding of the WebSocket part of [server.js]: the two
    process-wide maps [rooms] and [roomOwners], the per-connection closure
    variables [currentRoom] and [currentUser], the [message] handler with
    its [try]/[catch], and the [close] handler.

    Modelling choices.
    - [rooms] and [roomOwners] are plain JS objects used as maps; their own
      properties are finite maps keyed by the property key (the [ToString]
      of the value used as index).  Both inherit from [Object.prototype]:
      reading a key that names one of its members, and that the object does
      not define itself, yields that member (a function or an object, which
      is truthy, has none of the array methods and is [===] to no field of
      a frame).
    - An exception that leaves a handler is caught nowhere in the source:
      the process ends, and no later event is handled.
    - The values a JSON field can take are [undefined] (field absent),
      [null], booleans and strings; numbers, arrays and objects as field
      values are outside the model.
    - A connection handle is observed by the code only through
      [readyState === WebSocket.OPEN]; the model keeps, per handle, whether
      that test succeeds.  Handles are born open ([wss.on("connection")]).
    - Every call of [send] is recorded, in order, together with the handle
      it was called on.
    - [JSON.parse] belongs to the runtime: an inbound frame carries its raw
      text and the value [JSON.parse] yields for it.
    - [Math.random()] is an input of the handler: a binary64 number in
      [0, 1), given by its integer significand and exponent. *)

From Stdlib Require Import ZArith Lia Ascii String.
From stdpp Require Import gmap strings list fin_maps.

#[local] Set Warnings "-clear-no-such-hyp".

Open Scope string_scope.
Open Scope list_scope.

(** ** JavaScript values carried by JSON fields *)

Inductive jsval :=
  | JUndefined
  | JNull
  | JBool (b : bool)
  | JString (s : string).

#[global] Instance jsval_eq_dec : EqDecision jsval.
Proof. solve_decision. Defined.

(** [a === b] on the values of the model. *)
Definition strict_eq (a b : jsval) : bool := bool_decide (a = b).

(** Truthiness, as tested by [if (x)] and [x && ...]. *)
Definition truthy (v : jsval) : bool :=
  match v with
  | JUndefined | JNull => false
  | JBool b => b
  | JString s => negb (bool_decide (s = EmptyString))
  end.

(** [ToString]: used for property keys ([rooms[v]]) and in template
    literals. *)
Definition to_string (v : jsval) : string :=
  match v with
  | JUndefined => "undefined"
  | JNull => "null"
  | JBool true => "true"
  | JBool false => "false"
  | JString s => s
  end.

(** ** Reading a property of an object literal *)

(** The names of the members of [Object.prototype]. *)
Definition Object_prototype_members : list string :=
  ["constructor"; "__defineGetter__"; "__defineSetter__"; "hasOwnProperty";
   "__lookupGetter__"; "__lookupSetter__"; "isPrototypeOf";
   "propertyIsEnumerable"; "toString"; "valueOf"; "__proto__";
   "toLocaleString"].

(** [k] names a member every object literal inherits. *)
Definition inherited (k : string) : bool :=
  bool_decide (k ∈ Object_prototype_members).

(** What a read [obj[k]] of a map of field values yields: a field value
    ([undefined] when there is no such property at all), or a member
    inherited from [Object.prototype]. *)
Inductive jsread :=
  | Plain (v : jsval)
  | Inherited.

#[global] Instance jsread_eq_dec : EqDecision jsread.
Proof. solve_decision. Defined.

Coercion Plain : jsval >-> jsread.

(** ** Connection handles, frames and outbound messages *)

Abbreviation socket := nat (only parsing).

(** The object [JSON.parse] returns, seen through the destructuring
    [const { action, userId, room, text, type, url, filename } = msg]. *)
Record Msg := MkMsg {
  action : jsval;
  userId : jsval;
  room : jsval;
  text : jsval;
  type : jsval;
  url : jsval;
  filename : jsval
}.

(** An inbound frame: [rawMsg.toString()] and the result of [JSON.parse]
    on it followed by the destructuring ([None]: one of them throws). *)
Record Frame := MkFrame {
  raw : string;
  parsed : option Msg
}.

(** What is passed to [send]: the raw text of a frame, or the
    [JSON.stringify] of one of the object literals of the source. *)
Inductive Outbound :=
  | RoomCreated (r : string)
  | System (r : jsval) (t : string)
  | Raw (bytes : string)
  | DeleteFile (r u l f : jsval)
  | ClearChat (r u : jsval) (t : string)
  | RoomDestroyed (r : jsval) (t : string).

#[global] Instance Outbound_eq_dec : EqDecision Outbound.
Proof. solve_decision. Defined.

Definition Delivery : Type := socket * Outbound.

(** ** Server state *)

Record Session := MkSession {
  currentRoom : jsval;
  currentUser : jsval
}.

Definition new_session : Session :=
  {| currentRoom := JNull; currentUser := JNull |}.

Record World := MkWorld {
  rooms : gmap string (list socket);
  roomOwners : gmap string jsval;
  sessions : gmap socket Session;
  not_open : gset socket
}.

Definition initial : World :=
  {| rooms := ∅; roomOwners := ∅; sessions := ∅; not_open := ∅ |}.

Definition session_of (w : World) (ws : socket) : Session :=
  default new_session (sessions w !! ws).

(** [client.readyState === WebSocket.OPEN] *)
Definition is_open (w : World) (ws : socket) : bool :=
  bool_decide (ws ∉ not_open w).

(** [roomOwners[k]]: the own property if there is one, else the member
    inherited under that name if there is one, else [undefined]. *)
Definition owner_of (w : World) (k : string) : jsread :=
  match roomOwners w !! k with
  | Some o => Plain o
  | None => if inherited k then Inherited else Plain JUndefined
  end.

(** [!rooms[k]]: there is neither an own property [k] (an array, which is
    truthy) nor an inherited member of that name. *)
Definition no_room (w : World) (k : string) : bool :=
  bool_decide (rooms w !! k = None) && negb (inherited k).

Definition set_rooms (f : gmap string (list socket) → gmap string (list socket))
    (w : World) : World :=
  {| rooms := f (rooms w); roomOwners := roomOwners w;
     sessions := sessions w; not_open := not_open w |}.

Definition set_roomOwners (f : gmap string jsval → gmap string jsval)
    (w : World) : World :=
  {| rooms := rooms w; roomOwners := f (roomOwners w);
     sessions := sessions w; not_open := not_open w |}.

Definition set_currentRoom (ws : socket) (v : jsval) (w : World) : World :=
  {| rooms := rooms w; roomOwners := roomOwners w;
     sessions := <[ws := {| currentRoom := v;
                            currentUser := currentUser (session_of w ws) |}]>
                   (sessions w);
     not_open := not_open w |}.

Definition set_currentUser (ws : socket) (v : jsval) (w : World) : World :=
  {| rooms := rooms w; roomOwners := roomOwners w;
     sessions := <[ws := {| currentRoom := currentRoom (session_of w ws);
                            currentUser := v |}]>
                   (sessions w);
     not_open := not_open w |}.

(** [client.close()], and the transport closing a connection. *)
Definition mark_closed (ws : socket) (w : World) : World :=
  {| rooms := rooms w; roomOwners := roomOwners w;
     sessions := sessions w; not_open := {[ws]} ∪ not_open w |}.

(** ** Handler monad: state, recorded sends, exceptions *)

Record Run (A : Type) := MkRun {
  world : World;
  sent : list Delivery;
  value : option A
}.
Arguments MkRun {A} _ _ _.
Arguments world {A} _.
Arguments sent {A} _.
Arguments value {A} _.

Definition M (A : Type) : Type := World → Run A.

#[global] Instance M_ret : MRet M := λ A a w, MkRun w [] (Some a).

#[global] Instance M_bind : MBind M := λ A B k m w,
  match value (m w) with
  | Some a =>
      let r := k a (world (m w)) in
      MkRun (world r) (sent (m w) ++ sent r) (value r)
  | None => MkRun (world (m w)) (sent (m w)) None
  end.

Definition throw {A} : M A := λ w, MkRun w [] None.
Definition gets {A} (f : World → A) : M A := λ w, MkRun w [] (Some (f w)).
Definition modify (f : World → World) : M unit := λ w, MkRun (f w) [] (Some tt).
Definition send (c : socket) (p : Outbound) : M unit :=
  λ w, MkRun w [(c, p)] (Some tt).
Definition when (b : bool) (m : M unit) : M unit := if b then m else mret tt.

(** [arr.forEach(f)] *)
Fixpoint forEach (l : list socket) (f : socket → M unit) : M unit :=
  match l with
  | [] => mret tt
  | c :: l' => f c;; forEach l' f
  end.

(** [rooms[k]] used as the receiver of [push], [forEach] or [filter]: a
    [TypeError] when the property is [undefined], and also when it is an
    inherited member, which has no such method. *)
Definition members_or_throw (k : string) : M (list socket) := λ w,
  match rooms w !! k with
  | Some l => MkRun w [] (Some l)
  | None => MkRun w [] None
  end.

(** ** The room code: [Math.floor(10000 + Math.random() * 90000).toString()] *)

Section RoomCode.
Local Open Scope Z_scope.

(** A binary64 number in [0, 1): [significand * 2^-exponent]. *)
Record unit_double := MkDouble {
  significand : Z;
  exponent : Z
}.

Definition valid_unit_double (d : unit_double) : Prop :=
  0 ≤ significand d < 2 ^ 53 ∧ 53 ≤ exponent d ≤ 1074.

(** Rounding of a non-negative integer to 53 significant bits, to nearest,
    ties to even.  With every quantity counted in units of [2^-exponent]
    this is the rounding binary64 applies to the result of [*] and [+]
    (the values met here are below 2^17 and, once they need more than 53
    bits, above the subnormal range). *)
Definition round53 (n : Z) : Z :=
  if n <? 2 ^ 53 then n
  else
    let sh := Z.log2 n - 52 in
    let q := n / 2 ^ sh in
    let r := n mod 2 ^ sh in
    let h := 2 ^ (sh - 1) in
    if (h <? r) || ((r =? h) && Z.odd q) then (q + 1) * 2 ^ sh else q * 2 ^ sh.

(** [Math.floor(10000 + x * 90000)] for [x = Math.random()]. *)
Definition room_number (x : unit_double) : Z :=
  let e := exponent x in
  let product := round53 (significand x * 90000) in
  let sum := round53 (10000 * 2 ^ e + product) in
  sum / 2 ^ e.

Definition digit_char (d : Z) : ascii := ascii_of_N (48 + Z.to_N d).

Fixpoint decimal (fuel : nat) (n : Z) (acc : string) : string :=
  match fuel with
  | O => acc
  | S fuel' =>
      let acc' := String (digit_char (n mod 10)) acc in
      if n <? 10 then acc' else decimal fuel' (n / 10) acc'
  end.

(** [n.toString()] for a non-negative integer [n]. *)
Definition Number_toString (n : Z) : string :=
  decimal (S (Z.to_nat (Z.log2 n))) n EmptyString.

Definition room_code (x : unit_double) : string :=
  Number_toString (room_number x).

(** Reading a string of decimal digits back. *)
Definition digit_value (c : ascii) : option Z :=
  let n := Z.of_N (N_of_ascii c) in
  if (48 <=? n) && (n <=? 57) then Some (n - 48) else None.

Fixpoint numeric_value_from (acc : Z) (s : string) : option Z :=
  match s with
  | EmptyString => Some acc
  | String c s' =>
      match digit_value c with
      | Some d => numeric_value_from (10 * acc + d) s'
      | None => None
      end
  end.

Definition numeric_value (s : string) : option Z :=
  match s with
  | EmptyString => None
  | _ => numeric_value_from 0 s
  end.

End RoomCode.

(** ** The [message] handler (server.js, lines 72-180) *)

(** [JSON.parse(rawMsg.toString())] and the destructuring of its result. *)
Definition JSON_parse (rawMsg : Frame) : M Msg :=
  match parsed rawMsg with
  | Some msg => mret msg
  | None => throw
  end.

(** [if (client.readyState === WebSocket.OPEN) { client.send(p); }] *)
Definition send_if_open (p : Outbound) (client : socket) : M unit :=
  open ← gets (λ w, is_open w client);
  when open (send client p).

(** Lines 77-86. *)
Definition create_branch (ws : socket) (msg : Msg) (x : unit_double) : M unit :=
  let code := room_code x in
  modify (set_currentRoom ws (JString code));;
  modify (set_rooms <[code := [ws]]>);;
  modify (set_roomOwners <[code := userId msg]>);;
  modify (set_currentUser ws (userId msg));;
  send ws (RoomCreated code).

(** Loop body of lines 103-107. *)
Definition send_if_other_open (ws : socket) (p : Outbound) (client : socket)
    : M unit :=
  open ← gets (λ w, is_open w client);
  when (bool_decide (client ≠ ws) && open) (send client p).

(** Lines 87-108. *)
Definition join_branch (ws : socket) (msg : Msg) : M unit :=
  modify (set_currentRoom ws (room msg));;
  modify (set_currentUser ws (userId msg));;
  let k := to_string (room msg) in
  missing ← gets (λ w, no_room w k);
  when missing (modify (set_rooms <[k := []]>));;
  l ← members_or_throw k;
  modify (set_rooms <[k := l ++ [ws]]>);;
  let joinMsg :=
    System (room msg) (to_string (userId msg) +:+ " has joined the chat") in
  members ← members_or_throw k;
  forEach members (send_if_other_open ws joinMsg).

(** Lines 109-121. *)
Definition message_branch (cur : jsval) (rawMsg : Frame) : M unit :=
  members ← members_or_throw (to_string cur);
  forEach members (send_if_open (Raw (raw rawMsg))).

(** Lines 122-138. *)
Definition deleteFile_branch (cur : jsval) (msg : Msg) : M unit :=
  let deleteMsg := DeleteFile cur (userId msg) (url msg) (filename msg) in
  members ← members_or_throw (to_string cur);
  forEach members (send_if_open deleteMsg).

(** Lines 139-154. *)
Definition clearChat_branch (cur : jsval) (msg : Msg) : M unit :=
  let clearMsg :=
    ClearChat cur (userId msg)
      ("Chat cleared by " +:+ to_string (userId msg) +:+
       " using shortcut (" +:+ to_string (text msg) +:+ ")") in
  members ← members_or_throw (to_string cur);
  forEach members (send_if_open clearMsg).

(** Loop body of lines 166-171. *)
Definition notify_and_close (p : Outbound) (client : socket) : M unit :=
  open ← gets (λ w, is_open w client);
  when open (send client p;; modify (mark_closed client)).

(** Lines 155-176. *)
Definition destroyRoom_branch (cur : jsval) (msg : Msg) : M unit :=
  let k := to_string cur in
  owner ← gets (λ w, owner_of w k);
  when (bool_decide (owner = Plain (userId msg))) (
    let destroyMsg :=
      RoomDestroyed cur
        ("Room " +:+ to_string cur +:+ " has been destroyed by " +:+
         to_string (userId msg)) in
    members ← members_or_throw k;
    forEach members (notify_and_close destroyMsg);;
    modify (set_rooms (delete k));;
    modify (set_roomOwners (delete k))).

(** The body of the [try] block. *)
Definition handle (ws : socket) (rawMsg : Frame) (x : unit_double) : M unit :=
  msg ← JSON_parse rawMsg;
  cur ← gets (λ w, currentRoom (session_of w ws));
  if strict_eq (action msg) (JString "create") then
    create_branch ws msg x
  else if strict_eq (action msg) (JString "join") then
    join_branch ws msg
  else if strict_eq (action msg) (JString "message") && truthy cur then
    message_branch cur rawMsg
  else if strict_eq (action msg) (JString "deleteFile") && truthy cur then
    deleteFile_branch cur msg
  else if strict_eq (action msg) (JString "clearChat") && truthy cur then
    clearChat_branch cur msg
  else if strict_eq (action msg) (JString "destroyRoom") && truthy cur then
    destroyRoom_branch cur msg
  else
    mret tt.

(** How a handler invocation ends. *)
Inductive Outcome :=
  | Completed        (* the handler ran to its end *)
  | ErrorLogged      (* an exception reached [catch] and was logged *)
  | Uncaught.        (* an exception left the handler *)

(** [try { ... } catch (err) { console.error(...) }] *)
Definition try_catch (m : M unit) : M Outcome := λ w,
  let r := m w in
  MkRun (world r) (sent r)
    (Some (match value r with Some _ => Completed | None => ErrorLogged end)).

(** A handler without [try]: an exception leaves it. *)
Definition no_catch (m : M unit) : M Outcome := λ w,
  let r := m w in
  MkRun (world r) (sent r)
    (Some (match value r with Some _ => Completed | None => Uncaught end)).

(** [ws.on("message", (rawMsg) => { ... })] *)
Definition on_message (ws : socket) (rawMsg : Frame) (x : unit_double)
    : M Outcome :=
  try_catch (handle ws rawMsg x).

(** ** The [close] handler (server.js, lines 182-201) *)

Definition close_body (ws : socket) : M unit :=
  cur ← gets (λ w, currentRoom (session_of w ws));
  user ← gets (λ w, currentUser (session_of w ws));
  let k := to_string cur in
  missing ← gets (λ w, no_room w k);
  if truthy cur && negb missing then
    l ← members_or_throw k;
    modify (set_rooms <[k := filter (λ c, c ≠ ws) l]>);;
    when (truthy user) (
      let leftMsg := System cur (to_string user +:+ " has left the chat") in
      members ← members_or_throw k;
      forEach members (send_if_open leftMsg))
  else
    mret tt.

Definition on_close (ws : socket) : M Outcome := no_catch (close_body ws).

(** ** Runs of the server *)

Inductive Event :=
  | Inbound (ws : socket) (rawMsg : Frame) (x : unit_double)
  | Disconnect (ws : socket).

(** One event: a frame arrives on [ws], or the connection of [ws] ends
    (its handle stops being open and its [close] handler runs). *)
Definition react (ev : Event) : M Outcome :=
  match ev with
  | Inbound ws rawMsg x => on_message ws rawMsg x
  | Disconnect ws => modify (mark_closed ws);; on_close ws
  end.

(** The events are handled one after the other; after an exception that
    left a handler the process is gone and the remaining events are not
    handled. *)
Fixpoint run (evs : list Event) : M unit :=
  match evs with
  | [] => mret tt
  | ev :: evs' =>
      outcome ← react ev;
      match outcome with
      | Uncaught => mret tt
      | _ => run evs'
      end
  end.

Definition reachable (w : World) : Prop :=
  ∃ evs, world (run evs initial) = w.

(** Number of recorded sends to [c] that satisfy [P]. *)
Definition count_to (P : Outbound → bool) (c : socket) (ds : list Delivery) : nat :=
  length (filter (λ d, d.1 = c ∧ P d.2 = true) ds).

Definition is_roomDestroyed (p : Outbound) : bool :=
  match p with RoomDestroyed _ _ => true | _ => false end.

(** Frames used in examples. *)
Definition frame_of (bytes : string) (msg : Msg) : Frame :=
  {| raw := bytes; parsed := Some msg |}.


(** ** Auxiliary definitions for the statements *)

(** The handles the destroy loop sends to: the entries that are open when
    the loop reaches them.  The loop closes each handle it sends to, so a
    later entry for the same handle is skipped. *)
Fixpoint first_open (closed : gset socket) (l : list socket) : list socket :=
  match l with
  | [] => []
  | c :: l' =>
      if decide (c ∈ closed) then first_open closed l'
      else c :: first_open ({[c]} ∪ closed) l'
  end.

Definition close_members (l : list socket) (w : World) : World :=
  {| rooms := rooms w; roomOwners := roomOwners w;
     sessions := sessions w; not_open := list_to_set l ∪ not_open w |}.

(** Both closure variables assigned, as [create] and [join] do. *)
Definition bind_session (ws : socket) (r u : jsval) (w : World) : World :=
  {| rooms := rooms w; roomOwners := roomOwners w;
     sessions := <[ws := {| currentRoom := r; currentUser := u |}]> (sessions w);
     not_open := not_open w |}.

(** The session of [ws] is bound to the room with key [k]: [currentRoom]
    is truthy and indexes [rooms] at [k]. *)
Definition bound_to (w : World) (ws : socket) (k : string) : Prop :=
  truthy (currentRoom (session_of w ws)) = true ∧
  to_string (currentRoom (session_of w ws)) = k.

(** Number of entries of a member list that are the handle [c]. *)
Definition occurrences (c : socket) (l : list socket) : nat :=
  length (filter (λ d, d = c) l).

Definition any_payload (p : Outbound) : bool := true.


(** A join event for the room with key [k]. *)
Definition is_join_to (k : string) (ev : Event) : Prop :=
  match ev with
  | Inbound _ rawMsg _ =>
      ∃ msg, parsed rawMsg = Some msg ∧ action msg = JString "join" ∧
             to_string (room msg) = k
  | Disconnect _ => False
  end.

(** The connection an event happens on. *)
Definition subject (ev : Event) : socket :=
  match ev with
  | Inbound ws _ _ => ws
  | Disconnect ws => ws
  end.

(** ** Sample frames and runs *)

(** [Math.random()] returning 0: the room code is 10000. *)
Definition zero : unit_double := MkDouble 0 53.

Definition create_msg (u : jsval) : Msg :=
  {| action := JString "create"; userId := u; room := JUndefined;
     text := JUndefined; type := JUndefined; url := JUndefined;
     filename := JUndefined |}.

Definition join_msg (r u : jsval) : Msg :=
  {| action := JString "join"; userId := u; room := r;
     text := JUndefined; type := JUndefined; url := JUndefined;
     filename := JUndefined |}.

Definition chat_msg (u : jsval) (t : string) : Msg :=
  {| action := JString "message"; userId := u; room := JUndefined;
     text := JString t; type := JUndefined; url := JUndefined;
     filename := JUndefined |}.

Definition destroy_msg (u : jsval) : Msg :=
  {| action := JString "destroyRoom"; userId := u; room := JUndefined;
     text := JUndefined; type := JUndefined; url := JUndefined;
     filename := JUndefined |}.

Definition create_by (ws : socket) (u : string) : Event :=
  Inbound ws (frame_of "create" (create_msg (JString u))) zero.

Definition join_by (ws : socket) (r : string) (u : jsval) : Event :=
  Inbound ws (frame_of "join" (join_msg (JString r) u)) zero.

(** alice (socket 1) creates room 10000 and bob (socket 2) joins it. *)
Definition two_members : list Event :=
  [create_by 1 "alice"; join_by 2 "10000" (JString "bob")].

(** bob then joins a second room on the same connection and disconnects:
    his handle stays in the member list of room 10000. *)
Definition stale_member : list Event :=
  two_members ++ [join_by 2 "lobby" (JString "bob"); Disconnect 2].



Definition destroy_by (ws : socket) (u : jsval) : Event :=
  Inbound ws (frame_of "destroy" (destroy_msg u)) zero.

(** alice and bob both create a room and draw the same code: the second
    [create] replaces the first room.  bob destroys his room; alice's
    connection is still open and bound to a code that is gone. *)
Definition orphaned : list Event :=
  [create_by 1 "alice"; create_by 2 "bob"; destroy_by 2 (JString "bob")].

(** ** The name of an uploaded file (server.js, lines 29-33) *)

Section UploadName.
Local Open Scope Z_scope.

(** [Math.round(v)] for a non-negative [v = n * 2^-e]: the nearest
    integer, a tie going upwards. *)
Definition Math_round (n e : Z) : Z := (2 * n + 2 ^ e) / 2 ^ (e + 1).

(** [Math.round(Math.random() * 1e6)] *)
Definition random_suffix (x : unit_double) : Z :=
  Math_round (round53 (significand x * 1000000)) (exponent x).

End UploadName.

(** The [filename] callback of the disk storage:
    [Date.now() + '-' + Math.round(Math.random() * 1e6)] followed by
    [path.extname(file.originalname || '')].  [now] is the value of
    [Date.now()] and [ext] the extension [path.extname] returns. *)
Definition upload_filename (now : Z) (x : unit_double) (ext : string) : string :=
  let uniqueName :=
    Number_toString now +:+ "-" +:+ Number_toString (random_suffix x) in
  uniqueName +:+ ext.

(** Every [Math.random()] an event consumes is a binary64 number of
    [0, 1). *)
Definition well_drawn (ev : Event) : Prop :=
  match ev with
  | Inbound _ _ x => valid_unit_double x
  | Disconnect _ => True
  end.



Definition other_msg (a : string) : Msg :=
  {| action := JString a; userId := JUndefined; room := JUndefined;
     text := JUndefined; type := JUndefined; url := JUndefined;
     filename := JUndefined |}.

(** * Properties *)

(** ** The room code *)

Example room_code_lowest : room_code (MkDouble 0 53) = "10000".
Proof. reflexivity. Qed.

Example room_code_highest :
  room_code (MkDouble (2 ^ 53 - 1) 53) = "99999".
Proof. vm_compute. reflexivity. Qed.

Example room_code_half : room_code (MkDouble (2 ^ 52) 53) = "55000".
Proof. vm_compute. reflexivity. Qed.

Section RoomCodeFacts.
Local Open Scope Z_scope.

Lemma round53_small n : n < 2 ^ 53 → round53 n = n.
Proof. intros H. unfold round53. by rewrite (proj2 (Z.ltb_lt _ _) H). Qed.

Lemma round53_cases n :
  2 ^ 53 ≤ n →
  let sh := Z.log2 n - 52 in
  1 ≤ sh ∧ 2 ^ (sh - 1) * 2 ^ 53 ≤ n ∧
  ∃ k, round53 n = k * 2 ^ sh ∧ n / 2 ^ sh ≤ k ∧
       (round53 n - n) ≤ 2 ^ (sh - 1).
Proof.
  intros Hn sh.
  assert (Hlog : 53 ≤ Z.log2 n) by (apply Z.log2_le_pow2; lia).
  assert (Hsh : 1 ≤ sh) by (unfold sh; lia).
  assert (Hpow : 2 ^ sh = 2 * 2 ^ (sh - 1)).
  { replace sh with (Z.succ (sh - 1)) at 1 by lia. apply Z.pow_succ_r. lia. }
  assert (Hh : 0 < 2 ^ (sh - 1)) by (apply Z.pow_pos_nonneg; lia).
  split; [done|]. split.
  { rewrite <- Z.pow_add_r by lia. replace (sh - 1 + 53) with (Z.log2 n)
      by (unfold sh; lia).
    apply Z.log2_spec. lia. }
  unfold round53. rewrite (proj2 (Z.ltb_ge _ _) Hn). fold sh.
  pose proof (Z.div_mod n (2 ^ sh) ltac:(lia)) as Hdm.
  pose proof (Z.mod_pos_bound n (2 ^ sh) ltac:(lia)) as Hr.
  destruct ((2 ^ (sh - 1) <? n mod 2 ^ sh)
            || (n mod 2 ^ sh =? 2 ^ (sh - 1)) && Z.odd (n / 2 ^ sh)) eqn:Hc.
  - exists (n / 2 ^ sh + 1). split; [done|]. split; [lia|].
    apply orb_true_iff in Hc as [Hc|Hc].
    + apply Z.ltb_lt in Hc. lia.
    + apply andb_true_iff in Hc as [Hc _]. apply Z.eqb_eq in Hc. lia.
  - exists (n / 2 ^ sh). split; [done|]. split; [lia|]. lia.
Qed.

Lemma round53_nonneg n : 0 ≤ n → 0 ≤ round53 n.
Proof.
  intros Hn. destruct (Z.lt_ge_cases n (2 ^ 53)) as [Hs|Hb].
  - by rewrite round53_small.
  - destruct (round53_cases n Hb) as (Hsh & _ & k & Hk & Hq & _).
    rewrite Hk. apply Z.mul_nonneg_nonneg; [|apply Z.pow_nonneg; lia].
    etrans; [|exact Hq]. apply Z.div_pos; [lia|]. apply Z.pow_pos_nonneg; lia.
Qed.

(** Relative error of at most 2^-53. *)
Lemma round53_upper n : 0 ≤ n → 2 ^ 53 * (round53 n - n) ≤ n.
Proof.
  intros Hn. destruct (Z.lt_ge_cases n (2 ^ 53)) as [Hs|Hb].
  - rewrite round53_small by done. lia.
  - destruct (round53_cases n Hb) as (Hsh & Hlow & k & _ & _ & Herr).
    assert (0 < 2 ^ (Z.log2 n - 52 - 1)) by (apply Z.pow_pos_nonneg; lia).
    nia.
Qed.

(** Rounding never goes below a multiple of the unit in the last place. *)
Lemma round53_lower n b :
  2 ^ 53 ≤ n → b * 2 ^ (Z.log2 n - 52) ≤ n →
  b * 2 ^ (Z.log2 n - 52) ≤ round53 n.
Proof.
  intros Hb Hm.
  destruct (round53_cases n Hb) as (Hsh & _ & k & Hk & Hq & _).
  assert (0 < 2 ^ (Z.log2 n - 52)) by (apply Z.pow_pos_nonneg; lia).
  rewrite Hk. apply Z.mul_le_mono_nonneg_r; [lia|].
  etrans; [|exact Hq]. apply Z.div_le_lower_bound; lia.
Qed.

(** A number that fits the format is left alone. *)
Lemma round53_exact n :
  2 ^ 53 ≤ n → n mod 2 ^ (Z.log2 n - 52) = 0 → round53 n = n.
Proof.
  intros Hb Hm.
  assert (Hlog : 53 ≤ Z.log2 n) by (apply Z.log2_le_pow2; lia).
  assert (Hh : 0 < 2 ^ (Z.log2 n - 52 - 1)) by (apply Z.pow_pos_nonneg; lia).
  assert (Hp : 0 < 2 ^ (Z.log2 n - 52)) by (apply Z.pow_pos_nonneg; lia).
  unfold round53. rewrite (proj2 (Z.ltb_ge _ _) Hb). cbv zeta. rewrite Hm.
  rewrite (proj2 (Z.ltb_ge _ _)) by lia.
  rewrite (proj2 (Z.eqb_neq _ _)) by lia. cbn [orb andb].
  pose proof (Z.div_mod n (2 ^ (Z.log2 n - 52)) ltac:(lia)). lia.
Qed.

Lemma room_number_range x :
  valid_unit_double x → 10000 ≤ room_number x ≤ 99999.
Proof.
  intros [[Hm0 Hm1] [He0 He1]]. unfold room_number.
  set (e := exponent x) in *. set (m := significand x) in *.
  set (n1 := m * 90000). set (p := round53 n1).
  set (s := 10000 * 2 ^ e + p).
  assert (HE : 2 ^ e = 2 ^ 53 * 2 ^ (e - 53)).
  { rewrite <- Z.pow_add_r by lia. f_equal. lia. }
  assert (HT : 1 ≤ 2 ^ (e - 53)).
  { assert (0 < 2 ^ (e - 53)) by (apply Z.pow_pos_nonneg; lia). lia. }
  set (T := 2 ^ (e - 53)) in *.
  assert (Hn1 : 0 ≤ n1) by (unfold n1; lia).
  assert (Hp0 : 0 ≤ p) by (by apply round53_nonneg).
  pose proof (round53_upper n1 Hn1) as Hpu. fold p in Hpu.
  assert (Hp1 : p < 90000 * 2 ^ 53) by (unfold n1 in *; lia).
  assert (Hs0 : 10000 * 2 ^ e ≤ s) by (unfold s; lia).
  assert (Hs1 : s < 100000 * 2 ^ e) by (unfold s; lia).
  assert (Hsb : 2 ^ 53 ≤ s) by lia.
  assert (Hpos : 0 < 2 ^ e) by lia.
  (* the binade of the sum *)
  assert (Hlog : e + 13 ≤ Z.log2 s ≤ e + 16).
  { split.
    - apply Z.log2_le_pow2; [lia|]. rewrite Z.pow_add_r by lia. lia.
    - apply Z.lt_succ_r. apply Z.log2_lt_pow2; [lia|].
      replace (Z.succ (e + 16)) with (e + 17) by lia.
      rewrite Z.pow_add_r by lia. lia. }
  split.
  - apply Z.div_le_lower_bound; [lia|].
    set (sh := Z.log2 s - 52).
    assert (Hsplit : 2 ^ e = 2 ^ (e - sh) * 2 ^ sh).
    { rewrite <- Z.pow_add_r by (unfold sh; lia). f_equal. lia. }
    pose proof (round53_lower s (10000 * 2 ^ (e - sh)) Hsb) as Hl.
    fold sh in Hl. lia.
  - assert (Hgoal : round53 s < 100000 * 2 ^ e).
    { pose proof (round53_upper s ltac:(lia)) as Hsu.
      destruct (Z.lt_ge_cases n1 (2 ^ 69)) as [Hlo|Hhi].
      - (* the product is below 2^16: the sum is far from 100000 *)
        assert (p ≤ 2 ^ 69 + 2 ^ 16) by lia.
        unfold s in *. lia.
      - destruct (Z.lt_ge_cases 1 T) as [HT2|HT1].
        + unfold s in *. lia.
        + (* exponent 53 and a product of at least 2^16 *)
          assert (T = 1) by lia.
          assert (Hl1 : Z.log2 n1 = 69).
          { apply Z.log2_unique; [lia|]. unfold n1. lia. }
          destruct (Z.lt_ge_cases n1 (2 ^ 53)) as [?|Hb1]; [lia|].
          destruct (round53_cases n1 Hb1) as (_ & _ & k & Hk & _ & _).
          fold p in Hk. rewrite Hl1 in Hk. change (69 - 52) with 17 in Hk.
          pose proof (round53_lower n1 (2 ^ 52) Hb1) as Hpl.
          rewrite Hl1 in Hpl. change (69 - 52) with 17 in Hpl. fold p in Hpl.
          assert (Hp69 : 2 ^ 69 ≤ p) by lia.
          assert (Hls : Z.log2 s = 69).
          { apply Z.log2_unique; [lia|]. unfold s. lia. }
          assert (Hex : round53 s = s).
          { apply round53_exact; [done|]. rewrite Hls.
            change (69 - 52) with 17.
            replace s with ((10000 * 2 ^ 36 * T + k) * 2 ^ 17)
              by (unfold s; lia).
            apply Z.mod_mul. lia. }
          lia. }
    apply Z.lt_succ_r. apply Z.div_lt_upper_bound; lia.
Qed.


Lemma digit_value_char d : 0 ≤ d ≤ 9 → digit_value (digit_char d) = Some d.
Proof.
  intros Hd.
  assert (Hc : d = 0 ∨ d = 1 ∨ d = 2 ∨ d = 3 ∨ d = 4 ∨ d = 5 ∨ d = 6 ∨
               d = 7 ∨ d = 8 ∨ d = 9) by lia.
  repeat (destruct Hc as [->|Hc]; [reflexivity|]). by subst.
Qed.

Lemma decimal_five_digits fuel n :
  10000 ≤ n ≤ 99999 →
  decimal (5 + fuel) n EmptyString =
  String (digit_char (n / 10 / 10 / 10 / 10 mod 10))
    (String (digit_char (n / 10 / 10 / 10 mod 10))
      (String (digit_char (n / 10 / 10 mod 10))
        (String (digit_char (n / 10 mod 10))
          (String (digit_char (n mod 10)) EmptyString)))).
Proof.
  intros Hn.
  pose proof (Z.div_mod n 10 ltac:(lia)).
  pose proof (Z.mod_pos_bound n 10 ltac:(lia)).
  pose proof (Z.div_mod (n / 10) 10 ltac:(lia)).
  pose proof (Z.mod_pos_bound (n / 10) 10 ltac:(lia)).
  pose proof (Z.div_mod (n / 10 / 10) 10 ltac:(lia)).
  pose proof (Z.mod_pos_bound (n / 10 / 10) 10 ltac:(lia)).
  pose proof (Z.div_mod (n / 10 / 10 / 10) 10 ltac:(lia)).
  pose proof (Z.mod_pos_bound (n / 10 / 10 / 10) 10 ltac:(lia)).
  change (5 + fuel)%nat with (S (S (S (S (S fuel))))). cbn [decimal].
  rewrite (proj2 (Z.ltb_ge n 10)) by lia.
  rewrite (proj2 (Z.ltb_ge (n / 10) 10)) by lia.
  rewrite (proj2 (Z.ltb_ge (n / 10 / 10) 10)) by lia.
  rewrite (proj2 (Z.ltb_ge (n / 10 / 10 / 10) 10)) by lia.
  rewrite (proj2 (Z.ltb_lt (n / 10 / 10 / 10 / 10) 10)) by lia.
  reflexivity.
Qed.

Lemma Number_toString_five_digits n :
  10000 ≤ n ≤ 99999 →
  String.length (Number_toString n) = 5%nat ∧
  numeric_value (Number_toString n) = Some n.
Proof.
  intros Hn. unfold Number_toString.
  assert (Hlog : 13 ≤ Z.log2 n).
  { apply Z.log2_le_pow2; lia. }
  assert (Hf : ∃ fuel, S (Z.to_nat (Z.log2 n)) = (5 + fuel)%nat).
  { exists (Z.to_nat (Z.log2 n) - 4)%nat. lia. }
  destruct Hf as [fuel ->]. rewrite decimal_five_digits by done.
  split; [reflexivity|].
  pose proof (Z.div_mod n 10 ltac:(lia)).
  pose proof (Z.mod_pos_bound n 10 ltac:(lia)).
  pose proof (Z.div_mod (n / 10) 10 ltac:(lia)).
  pose proof (Z.mod_pos_bound (n / 10) 10 ltac:(lia)).
  pose proof (Z.div_mod (n / 10 / 10) 10 ltac:(lia)).
  pose proof (Z.mod_pos_bound (n / 10 / 10) 10 ltac:(lia)).
  pose proof (Z.div_mod (n / 10 / 10 / 10) 10 ltac:(lia)).
  pose proof (Z.mod_pos_bound (n / 10 / 10 / 10) 10 ltac:(lia)).
  pose proof (Z.div_mod (n / 10 / 10 / 10 / 10) 10 ltac:(lia)).
  pose proof (Z.mod_pos_bound (n / 10 / 10 / 10 / 10) 10 ltac:(lia)).
  unfold numeric_value. cbn [numeric_value_from].
  rewrite !digit_value_char by lia. f_equal. lia.
Qed.
End RoomCodeFacts.

(** ** Laws of the handler monad *)

Lemma run_eta {A} (r : Run A) : MkRun (world r) (sent r) (value r) = r.
Proof. by destruct r. Qed.

Lemma bind_ret {A B} (a : A) (k : A → M B) w : (mret a ≫= k) w = k a w.
Proof. unfold mbind, M_bind, mret, M_ret. simpl. apply run_eta. Qed.

Lemma bind_gets {A B} (f : World → A) (k : A → M B) w :
  (gets f ≫= k) w = k (f w) w.
Proof. unfold mbind, M_bind, gets. simpl. apply run_eta. Qed.

Lemma bind_modify {B} (f : World → World) (k : unit → M B) w :
  (modify f ≫= k) w = k tt (f w).
Proof. unfold mbind, M_bind, modify. simpl. apply run_eta. Qed.

Lemma bind_send {B} c p (k : unit → M B) w :
  (send c p ≫= k) w =
  MkRun (world (k tt w)) ((c, p) :: sent (k tt w)) (value (k tt w)).
Proof. reflexivity. Qed.

Lemma bind_throw {A B} (k : A → M B) w :
  (throw ≫= k) w = MkRun w [] None.
Proof. reflexivity. Qed.

Lemma bind_members_some {B} k l (f : list socket → M B) w :
  rooms w !! k = Some l → (members_or_throw k ≫= f) w = f l w.
Proof.
  intros H. unfold mbind, M_bind, members_or_throw. rewrite H. simpl.
  apply run_eta.
Qed.

Lemma bind_members_none {B} k (f : list socket → M B) w :
  rooms w !! k = None → (members_or_throw k ≫= f) w = MkRun w [] None.
Proof.
  intros H. unfold mbind, M_bind, members_or_throw. by rewrite H.
Qed.

Lemma bind_value {A B} (m : M A) (k : A → M B) w w' o a :
  m w = MkRun w' o (Some a) →
  (m ≫= k) w = MkRun (world (k a w')) (o ++ sent (k a w')) (value (k a w')).
Proof. intros H. unfold mbind, M_bind. by rewrite H. Qed.

(** ** The loops *)

Lemma is_open_true w c : is_open w c = true ↔ c ∉ not_open w.
Proof. unfold is_open. by rewrite bool_decide_eq_true. Qed.

Lemma is_open_false w c : is_open w c = false ↔ c ∈ not_open w.
Proof.
  unfold is_open. rewrite bool_decide_eq_false. split; [apply dec_stable|].
  tauto.
Qed.

Lemma send_if_open_run p c w :
  send_if_open p c w =
  MkRun w (if is_open w c then [(c, p)] else []) (Some tt).
Proof.
  unfold send_if_open. rewrite bind_gets. by destruct (is_open w c).
Qed.

(** A loop of guarded sends records one send per open entry of the list,
    in list order, and changes nothing. *)
Lemma forEach_send_if_open p l w :
  forEach l (send_if_open p) w =
  MkRun w (map (λ c, (c, p)) (filter (λ c, is_open w c) l)) (Some tt).
Proof.
  induction l as [|c l IH]; [done|].
  cbn [forEach]. erewrite bind_value by apply send_if_open_run.
  rewrite IH, filter_cons. cbn [world sent value].
  case_decide as Hd; destruct (is_open w c); simpl in *; done.
Qed.

Lemma send_if_other_open_run ws p c w :
  send_if_other_open ws p c w =
  MkRun w (if bool_decide (c ≠ ws) && is_open w c then [(c, p)] else [])
    (Some tt).
Proof.
  unfold send_if_other_open. rewrite bind_gets.
  by destruct (bool_decide (c ≠ ws) && is_open w c).
Qed.

(** The loop of the join notice: one send per open entry other than the
    joiner. *)
Lemma forEach_send_if_other_open ws p l w :
  forEach l (send_if_other_open ws p) w =
  MkRun w (map (λ c, (c, p)) (filter (λ c, c ≠ ws ∧ is_open w c) l))
    (Some tt).
Proof.
  induction l as [|c l IH]; [done|].
  cbn [forEach]. erewrite bind_value by apply send_if_other_open_run.
  rewrite IH, filter_cons. cbn [world sent value].
  case_decide as Hd; case_bool_decide as Hn; destruct (is_open w c);
    simpl in *; try done; naive_solver.
Qed.

Lemma elem_of_first_open X l c : c ∈ first_open X l ↔ c ∈ l ∧ c ∉ X.
Proof.
  revert X. induction l as [|a l IH]; intros X; cbn [first_open].
  - set_solver.
  - case_decide as Ha.
    + rewrite IH. set_solver.
    + rewrite !elem_of_cons, IH. destruct (decide (c = a)); set_solver.
Qed.

Lemma NoDup_first_open X l : NoDup (first_open X l).
Proof.
  revert X. induction l as [|a l IH]; intros X; cbn [first_open].
  - constructor.
  - case_decide as Ha; [apply IH|]. constructor; [|apply IH].
    rewrite elem_of_first_open. set_solver.
Qed.


Lemma notify_and_close_run p c w :
  notify_and_close p c w =
  if is_open w c then MkRun (mark_closed c w) [(c, p)] (Some tt)
  else MkRun w [] (Some tt).
Proof.
  unfold notify_and_close. rewrite bind_gets. by destruct (is_open w c).
Qed.

(** The destroy loop. *)
Lemma forEach_notify_and_close p l w :
  forEach l (notify_and_close p) w =
  MkRun (close_members l w)
    (map (λ c, (c, p)) (first_open (not_open w) l)) (Some tt).
Proof.
  revert w. induction l as [|c l IH]; intros w.
  - unfold close_members. cbn [forEach first_open map list_to_set].
    rewrite (left_id_L ∅ (∪)). by destruct w.
  - cbn [forEach first_open].
    destruct (decide (c ∈ not_open w)) as [Hc|Hc].
    + erewrite bind_value
        by (rewrite notify_and_close_run, (proj2 (is_open_false w c) Hc);
            reflexivity).
      rewrite IH. cbn [world sent value app].
      unfold close_members; cbn. f_equal. f_equal. set_solver.
    + erewrite bind_value
        by (rewrite notify_and_close_run, (proj2 (is_open_true w c) Hc);
            reflexivity).
      rewrite IH. cbn [world sent value].
      unfold close_members, mark_closed; cbn. f_equal. f_equal. set_solver.
Qed.

(** ** Dispatch on the action tag *)

Section Dispatch.
Context (ws : socket) (rawMsg : Frame) (x : unit_double) (msg : Msg) (w : World).
Hypothesis Hparsed : parsed rawMsg = Some msg.

Let cur := currentRoom (session_of w ws).

Lemma handle_unfold :
  handle ws rawMsg x w =
  (if strict_eq (action msg) (JString "create") then
     create_branch ws msg x
   else if strict_eq (action msg) (JString "join") then
     join_branch ws msg
   else if strict_eq (action msg) (JString "message") && truthy cur then
     message_branch cur rawMsg
   else if strict_eq (action msg) (JString "deleteFile") && truthy cur then
     deleteFile_branch cur msg
   else if strict_eq (action msg) (JString "clearChat") && truthy cur then
     clearChat_branch cur msg
   else if strict_eq (action msg) (JString "destroyRoom") && truthy cur then
     destroyRoom_branch cur msg
   else mret tt) w.
Proof.
  unfold handle, JSON_parse. rewrite Hparsed.
  rewrite bind_ret, bind_gets. reflexivity.
Qed.

Lemma handle_create :
  action msg = JString "create" →
  handle ws rawMsg x w = create_branch ws msg x w.
Proof. intros Ha. rewrite handle_unfold, Ha. reflexivity. Qed.

Lemma handle_join :
  action msg = JString "join" →
  handle ws rawMsg x w = join_branch ws msg w.
Proof. intros Ha. rewrite handle_unfold, Ha. reflexivity. Qed.

Lemma handle_message :
  action msg = JString "message" → truthy cur = true →
  handle ws rawMsg x w = message_branch cur rawMsg w.
Proof. intros Ha Hc. rewrite handle_unfold, Ha, Hc. reflexivity. Qed.

Lemma handle_deleteFile :
  action msg = JString "deleteFile" → truthy cur = true →
  handle ws rawMsg x w = deleteFile_branch cur msg w.
Proof. intros Ha Hc. rewrite handle_unfold, Ha, Hc. reflexivity. Qed.

Lemma handle_clearChat :
  action msg = JString "clearChat" → truthy cur = true →
  handle ws rawMsg x w = clearChat_branch cur msg w.
Proof. intros Ha Hc. rewrite handle_unfold, Ha, Hc. reflexivity. Qed.

Lemma handle_destroyRoom :
  action msg = JString "destroyRoom" → truthy cur = true →
  handle ws rawMsg x w = destroyRoom_branch cur msg w.
Proof. intros Ha Hc. rewrite handle_unfold, Ha, Hc. reflexivity. Qed.

(** An action other than [create] and [join] on an unbound session does
    nothing. *)
Lemma handle_unbound :
  action msg ≠ JString "create" → action msg ≠ JString "join" →
  truthy cur = false →
  handle ws rawMsg x w = MkRun w [] (Some tt).
Proof.
  intros Hc Hj Hu. rewrite handle_unfold, Hu. unfold strict_eq.
  rewrite !bool_decide_eq_false_2 by done.
  rewrite !andb_false_r. reflexivity.
Qed.

End Dispatch.

(** ** The branches in closed form *)

Lemma session_of_set_currentRoom ws v w :
  session_of (set_currentRoom ws v w) ws =
  {| currentRoom := v; currentUser := currentUser (session_of w ws) |}.
Proof. unfold session_of, set_currentRoom; cbn. by rewrite lookup_insert_eq. Qed.

Lemma session_of_set_currentUser ws v w :
  session_of (set_currentUser ws v w) ws =
  {| currentRoom := currentRoom (session_of w ws); currentUser := v |}.
Proof. unfold session_of, set_currentUser; cbn. by rewrite lookup_insert_eq. Qed.

Lemma set_currentUser_set_currentRoom ws r u w :
  set_currentUser ws u (set_currentRoom ws r w) = bind_session ws r u w.
Proof.
  unfold set_currentUser. rewrite session_of_set_currentRoom.
  unfold set_currentRoom, bind_session; cbn. by rewrite insert_insert_eq.
Qed.

Lemma create_branch_run ws msg x w :
  create_branch ws msg x w =
  MkRun
    {| rooms := <[room_code x := [ws]]> (rooms w);
       roomOwners := <[room_code x := userId msg]> (roomOwners w);
       sessions := <[ws := {| currentRoom := JString (room_code x);
                              currentUser := userId msg |}]> (sessions w);
       not_open := not_open w |}
    [(ws, RoomCreated (room_code x))] (Some tt).
Proof.
  unfold create_branch. rewrite !bind_modify.
  unfold send. f_equal.
  unfold set_currentUser, set_roomOwners, set_rooms. cbn.
  unfold session_of at 1. cbn. rewrite lookup_insert_eq. cbn.
  by rewrite insert_insert_eq.
Qed.

Lemma filter_other_snoc (P : socket → Prop) `{∀ c, Decision (P c)} ws l :
  filter (λ c, c ≠ ws ∧ P c) (l ++ [ws]) = filter (λ c, c ≠ ws ∧ P c) l.
Proof.
  rewrite filter_app, filter_cons, decide_False by tauto.
  by rewrite filter_nil, app_nil_r.
Qed.

Lemma no_room_own w k l : rooms w !! k = Some l → no_room w k = false.
Proof. intros H. unfold no_room. by rewrite H. Qed.

Lemma no_room_plain w k :
  rooms w !! k = None → inherited k = false → no_room w k = true.
Proof.
  intros H Hi. unfold no_room. rewrite H, Hi.
  by rewrite bool_decide_eq_true_2.
Qed.

Lemma no_room_inherited w k : inherited k = true → no_room w k = false.
Proof. intros Hi. unfold no_room. rewrite Hi. apply andb_false_r. Qed.

(** The printed form of a falsy value names no inherited member; so a name
    that does is truthy. *)
Lemma falsy_not_inherited v : truthy v = false → inherited (to_string v) = false.
Proof.
  destruct v as [| |[|]|s]; cbn [truthy to_string]; try done.
  intros Hs. apply negb_false_iff, bool_decide_eq_true in Hs. by subst s.
Qed.

Lemma inherited_truthy v : inherited (to_string v) = true → truthy v = true.
Proof.
  intros Hi. destruct (truthy v) eqn:Ht; [done|].
  apply falsy_not_inherited in Ht. congruence.
Qed.

(** [join]: the session is bound, the handle is appended to the (possibly
    just created) member list, and the notice goes to the open entries of
    the previous list other than the joiner.  This is the course of a join
    unless the name is an inherited member that [rooms] does not define. *)
Lemma join_branch_run ws msg w :
  let k := to_string (room msg) in
  let l0 := default [] (rooms w !! k) in
  (rooms w !! k = None → inherited k = false) →
  join_branch ws msg w =
  MkRun
    {| rooms := <[k := l0 ++ [ws]]> (rooms w);
       roomOwners := roomOwners w;
       sessions := <[ws := {| currentRoom := room msg;
                              currentUser := userId msg |}]> (sessions w);
       not_open := not_open w |}
    (map (λ c, (c, System (room msg)
                     (to_string (userId msg) +:+ " has joined the chat")))
         (filter (λ c, c ≠ ws ∧ is_open w c) l0))
    (Some tt).
Proof.
  intros k l0 Hplain. unfold join_branch. fold k.
  rewrite !bind_modify, set_currentUser_set_currentRoom, bind_gets.
  change (no_room (bind_session _ _ _ w) k) with (no_room w k).
  cbn [bind_session rooms]. subst l0.
  destruct (rooms w !! k) as [l|] eqn:Hk; cbn [default].
  - rewrite (no_room_own _ _ _ Hk). cbn [when]. rewrite bind_ret.
    erewrite bind_members_some by exact Hk.
    rewrite bind_modify.
    erewrite bind_members_some by apply lookup_insert_eq.
    rewrite forEach_send_if_other_open.
    change (is_open (set_rooms _ _)) with (is_open w).
    by rewrite filter_other_snoc.
  - rewrite (no_room_plain _ _ Hk (Hplain eq_refl)). cbn [when].
    rewrite bind_modify.
    erewrite bind_members_some by apply lookup_insert_eq.
    rewrite bind_modify.
    erewrite bind_members_some by apply lookup_insert_eq.
    rewrite forEach_send_if_other_open.
    change (is_open (set_rooms _ _)) with (is_open w).
    rewrite filter_other_snoc. cbn. unfold set_rooms; cbn.
    by rewrite insert_insert_eq.
Qed.

(** [join] to a name that is an inherited member and not a room: the
    session is bound, then [push] throws; no room is created and nothing is
    sent. *)
Lemma join_branch_throws ws msg w :
  rooms w !! to_string (room msg) = None →
  inherited (to_string (room msg)) = true →
  join_branch ws msg w =
  MkRun (bind_session ws (room msg) (userId msg) w) [] None.
Proof.
  intros Hk Hi. unfold join_branch.
  rewrite !bind_modify, set_currentUser_set_currentRoom, bind_gets.
  change (no_room (bind_session _ _ _ w) _)
    with (no_room w (to_string (room msg))).
  rewrite (no_room_inherited _ _ Hi). cbn [when]. rewrite bind_ret.
  by rewrite bind_members_none.
Qed.

(** The two courses of a join. *)
Lemma join_branch_cases ws msg w :
  let k := to_string (room msg) in
  let l0 := default [] (rooms w !! k) in
  join_branch ws msg w =
    MkRun
      {| rooms := <[k := l0 ++ [ws]]> (rooms w);
         roomOwners := roomOwners w;
         sessions := <[ws := {| currentRoom := room msg;
                                currentUser := userId msg |}]> (sessions w);
         not_open := not_open w |}
      (map (λ c, (c, System (room msg)
                       (to_string (userId msg) +:+ " has joined the chat")))
           (filter (λ c, c ≠ ws ∧ is_open w c) l0))
      (Some tt) ∨
  rooms w !! k = None ∧ inherited k = true ∧
  join_branch ws msg w =
    MkRun (bind_session ws (room msg) (userId msg) w) [] None.
Proof.
  intros k l0. subst k l0.
  destruct (rooms w !! to_string (room msg)) as [l|] eqn:Hk.
  - left. rewrite join_branch_run by (by rewrite Hk). by rewrite Hk.
  - destruct (inherited (to_string (room msg))) eqn:Hi.
    + right. by rewrite join_branch_throws.
    + left. rewrite join_branch_run by done. by rewrite Hk.
Qed.

(** Whatever its course, a join binds the session, leaves the owner
    records and the handles alone, and changes [rooms] at most at the name
    it joins. *)
Lemma join_branch_frame ws msg w :
  let w1 := world (join_branch ws msg w) in
  roomOwners w1 = roomOwners w ∧ not_open w1 = not_open w ∧
  sessions w1 = <[ws := {| currentRoom := room msg;
                           currentUser := userId msg |}]> (sessions w) ∧
  (∀ k, k ≠ to_string (room msg) → rooms w1 !! k = rooms w !! k) ∧
  (∀ l, rooms w !! to_string (room msg) = Some l →
        rooms w1 !! to_string (room msg) = Some (l ++ [ws])) ∧
  (rooms w !! to_string (room msg) = None →
     rooms w1 !! to_string (room msg) =
     if inherited (to_string (room msg)) then None else Some [ws]).
Proof.
  intros w1. subst w1.
  destruct (rooms w !! to_string (room msg)) as [l|] eqn:Hk.
  - rewrite join_branch_run by (by rewrite Hk). cbn [world]. rewrite Hk.
    cbn. split_and!; try done.
    + intros k Hne. by rewrite lookup_insert_ne.
    + intros l' [= <-]. by rewrite lookup_insert_eq.
  - destruct (inherited (to_string (room msg))) eqn:Hi.
    + rewrite join_branch_throws by done. cbn. split_and!; done.
    + rewrite join_branch_run by done. cbn [world]. rewrite Hk.
      cbn. split_and!; try done.
      * intros k Hne. by rewrite lookup_insert_ne.
      * intros _. by rewrite lookup_insert_eq.
Qed.

(** The three broadcasts that do not change the state. *)
Lemma message_branch_run cur rawMsg l w :
  rooms w !! to_string cur = Some l →
  message_branch cur rawMsg w =
  MkRun w (map (λ c, (c, Raw (raw rawMsg))) (filter (λ c, is_open w c) l))
    (Some tt).
Proof.
  intros Hl. unfold message_branch.
  erewrite bind_members_some by exact Hl. apply forEach_send_if_open.
Qed.

Lemma deleteFile_branch_run cur msg l w :
  rooms w !! to_string cur = Some l →
  deleteFile_branch cur msg w =
  MkRun w
    (map (λ c, (c, DeleteFile cur (userId msg) (url msg) (filename msg)))
         (filter (λ c, is_open w c) l))
    (Some tt).
Proof.
  intros Hl. unfold deleteFile_branch.
  erewrite bind_members_some by exact Hl. apply forEach_send_if_open.
Qed.

Lemma clearChat_branch_run cur msg l w :
  rooms w !! to_string cur = Some l →
  clearChat_branch cur msg w =
  MkRun w
    (map (λ c, (c, ClearChat cur (userId msg)
                     ("Chat cleared by " +:+ to_string (userId msg) +:+
                      " using shortcut (" +:+ to_string (text msg) +:+ ")")))
         (filter (λ c, is_open w c) l))
    (Some tt).
Proof.
  intros Hl. unfold clearChat_branch.
  erewrite bind_members_some by exact Hl. apply forEach_send_if_open.
Qed.

(** [destroyRoom] when the owner test succeeds and the room is there. *)
Lemma destroyRoom_branch_run cur msg l w :
  owner_of w (to_string cur) = userId msg →
  rooms w !! to_string cur = Some l →
  destroyRoom_branch cur msg w =
  MkRun
    {| rooms := delete (to_string cur) (rooms w);
       roomOwners := delete (to_string cur) (roomOwners w);
       sessions := sessions w;
       not_open := list_to_set l ∪ not_open w |}
    (map (λ c, (c, RoomDestroyed cur
                     ("Room " +:+ to_string cur +:+
                      " has been destroyed by " +:+ to_string (userId msg))))
         (first_open (not_open w) l))
    (Some tt).
Proof.
  intros Ho Hl. unfold destroyRoom_branch. rewrite bind_gets, Ho.
  rewrite bool_decide_eq_true_2 by done. cbn [when].
  erewrite bind_members_some by exact Hl.
  erewrite bind_value by apply forEach_notify_and_close.
  rewrite bind_modify. unfold modify. cbn. by rewrite app_nil_r.
Qed.

(** [destroyRoom] when the owner test fails. *)
Lemma destroyRoom_branch_refused cur msg w :
  owner_of w (to_string cur) ≠ userId msg →
  destroyRoom_branch cur msg w = MkRun w [] (Some tt).
Proof.
  intros Ho. unfold destroyRoom_branch. rewrite bind_gets.
  by rewrite bool_decide_eq_false_2 by done.
Qed.

(** [destroyRoom] when the owner test succeeds and [rooms] has no entry:
    the [forEach] call throws before anything is changed. *)
Lemma destroyRoom_branch_throws cur msg w :
  owner_of w (to_string cur) = userId msg →
  rooms w !! to_string cur = None →
  destroyRoom_branch cur msg w = MkRun w [] None.
Proof.
  intros Ho Hl. unfold destroyRoom_branch. rewrite bind_gets, Ho.
  rewrite bool_decide_eq_true_2 by done. cbn [when].
  by rewrite bind_members_none.
Qed.

(** The [close] handler in closed form.  When the session is bound to a
    name that is an inherited member and not a room, the guard passes and
    the call of [filter] throws. *)
Lemma close_body_run ws w :
  let cur := currentRoom (session_of w ws) in
  let user := currentUser (session_of w ws) in
  close_body ws w =
  match rooms w !! to_string cur with
  | Some l =>
      if truthy cur then
        MkRun (set_rooms <[to_string cur := filter (λ c, c ≠ ws) l]> w)
          (if truthy user then
             map (λ c, (c, System cur (to_string user +:+ " has left the chat")))
                 (filter (λ c, is_open w c) (filter (λ c, c ≠ ws) l))
           else [])
          (Some tt)
      else MkRun w [] (Some tt)
  | None =>
      if truthy cur && inherited (to_string cur) then MkRun w [] None
      else MkRun w [] (Some tt)
  end.
Proof.
  intros cur user. unfold close_body. rewrite !bind_gets. fold cur user.
  destruct (rooms w !! to_string cur) as [l|] eqn:Hl.
  - rewrite (no_room_own _ _ _ Hl).
    destruct (truthy cur); cbn [andb negb]; [|done].
    erewrite bind_members_some by exact Hl. rewrite bind_modify.
    destruct (truthy user); cbn [when]; [|done].
    erewrite bind_members_some by apply lookup_insert_eq.
    by rewrite forEach_send_if_open.
  - destruct (inherited (to_string cur)) eqn:Hi.
    + rewrite (no_room_inherited _ _ Hi).
      destruct (truthy cur); cbn [andb negb]; [|done].
      by rewrite bind_members_none.
    + rewrite (no_room_plain _ _ Hl Hi). by rewrite !andb_false_r.
Qed.

(** In every course the [close] handler leaves the owner records, the
    sessions and the handles alone, and changes [rooms] at most at the name
    the session is bound to, where an entry stays an entry. *)
Lemma close_body_frame ws w :
  let w1 := world (close_body ws w) in
  roomOwners w1 = roomOwners w ∧ sessions w1 = sessions w ∧
  not_open w1 = not_open w ∧
  (∀ k, k ≠ to_string (currentRoom (session_of w ws)) →
        rooms w1 !! k = rooms w !! k) ∧
  (∀ k, is_Some (rooms w1 !! k) ↔ is_Some (rooms w !! k)).
Proof.
  intros w1. subst w1. rewrite close_body_run.
  destruct (rooms w !! to_string _) as [l|] eqn:Hl.
  - destruct (truthy _); [|done]. cbn. split_and!; try done.
    + intros k Hne. by rewrite lookup_insert_ne.
    + intros k. rewrite lookup_insert_is_Some'.
      split; [intros [<-|?]; [by rewrite Hl|done]|by right].
  - by destruct (truthy _ && inherited _).
Qed.

(** A [destroyRoom] action that fails the owner test. *)
Lemma on_message_destroy_refused ws rawMsg x msg w :
  parsed rawMsg = Some msg →
  action msg = JString "destroyRoom" →
  owner_of w (to_string (currentRoom (session_of w ws))) ≠ userId msg →
  on_message ws rawMsg x w = MkRun w [] (Some Completed).
Proof.
  intros Hp Ha Ho. unfold on_message, try_catch.
  destruct (truthy (currentRoom (session_of w ws))) eqn:Ht.
  - rewrite (handle_destroyRoom _ _ _ _ _ Hp Ha Ht).
    by rewrite destroyRoom_branch_refused.
  - rewrite (handle_unbound _ _ _ _ _ Hp); [done| | |done];
      rewrite Ha; discriminate.
Qed.

(** ** Counting recorded sends *)

Lemma count_to_map P c p (t : list socket) :
  count_to P c (map (λ d, (d, p)) t) = if P p then occurrences c t else 0.
Proof.
  unfold count_to, occurrences. destruct (P p) eqn:HP.
  - induction t as [|a t IH]; [done|]. cbn [map].
    rewrite !filter_cons. cbn [fst snd].
    destruct (decide (a = c)) as [->|Hne].
    + rewrite decide_True by done. cbn [length]. f_equal. exact IH.
    + rewrite decide_False by tauto. exact IH.
  - induction t as [|a t IH]; [done|]. cbn [map].
    rewrite filter_cons. cbn [fst snd].
    rewrite decide_False by (rewrite HP; intros [_ ?]; done). exact IH.
Qed.

Lemma occurrences_NoDup c l :
  NoDup l → occurrences c l = if decide (c ∈ l) then 1 else 0.
Proof.
  unfold occurrences. induction 1 as [|a l Ha Hl IH]; [done|].
  rewrite filter_cons. destruct (decide (a = c)) as [->|Hne].
  - rewrite decide_True by set_solver. cbn [length]. rewrite IH.
    by rewrite decide_False.
  - rewrite IH. destruct (decide (c ∈ l)).
    + rewrite decide_True by set_solver. done.
    + rewrite decide_False by set_solver. done.
Qed.

Lemma occurrences_filter (P : socket → Prop) `{∀ c, Decision (P c)} c l :
  occurrences c (filter P l) = if decide (P c) then occurrences c l else 0.
Proof.
  unfold occurrences. rewrite list_filter_filter.
  destruct (decide (P c)) as [Hc|Hc].
  - f_equal. apply list_filter_iff. intros d. naive_solver.
  - rewrite (list_filter_iff _ (λ _, False)) by (intros d; naive_solver).
    induction l as [|a l IH]; [done|].
    rewrite filter_cons, decide_False by tauto. exact IH.
Qed.

(** * The claims *)

(** Closing a goal about a concrete run by evaluation. *)
Ltac crunch :=
  vm_compute; repeat split; try reflexivity; try discriminate.

(** ** C1: destroy by the owner *)

(** C1 (as amended): when the session of [ws] is bound to a room [R] that
    is in the registry with recorded owner [O], a [destroyRoom] action
    whose [userId] is [O] completes without error; every member of [R]
    whose handle is open is sent exactly one [roomDestroyed] message, a
    member whose handle is not open is sent nothing; afterwards no member's
    handle is open, and both the room entry and the owner record of [R] are
    removed (the other entries of the two maps are untouched). *)
Theorem destroyRoom_by_owner ws rawMsg x msg w R l O :
  parsed rawMsg = Some msg →
  action msg = JString "destroyRoom" →
  bound_to w ws R →
  rooms w !! R = Some l →
  roomOwners w !! R = Some O →
  userId msg = O →
  let r := on_message ws rawMsg x w in
  value r = Some Completed ∧
  (∀ c, c ∈ l → is_open w c = true →
        count_to is_roomDestroyed c (sent r) = 1 ∧
        count_to any_payload c (sent r) = 1) ∧
  (∀ c, c ∈ l → is_open w c = false → count_to any_payload c (sent r) = 0) ∧
  (∀ c, c ∈ l → is_open (world r) c = false) ∧
  rooms (world r) = delete R (rooms w) ∧
  roomOwners (world r) = delete R (roomOwners w) ∧
  rooms (world r) !! R = None ∧ roomOwners (world r) !! R = None.
Proof.
  intros Hp Ha [Ht <-] Hl Ho Hu r. subst r.
  unfold on_message, try_catch.
  rewrite (handle_destroyRoom _ _ _ _ _ Hp Ha Ht).
  rewrite (destroyRoom_branch_run _ _ l)
    by (done || (unfold owner_of; rewrite Ho; by subst O)).
  cbn [world sent value rooms roomOwners]. rewrite !lookup_delete_eq.
  split_and!; try done.
  - intros c Hc Hopen. rewrite !count_to_map. cbn.
    rewrite occurrences_NoDup by apply NoDup_first_open.
    rewrite decide_True; [done|].
    apply elem_of_first_open. split; [done|]. by apply is_open_true.
  - intros c Hc Hclosed. rewrite count_to_map. cbn.
    rewrite occurrences_NoDup by apply NoDup_first_open.
    rewrite decide_False; [done|].
    rewrite elem_of_first_open. apply is_open_false in Hclosed. tauto.
  - intros c Hc. apply is_open_false. cbn. set_solver.
Qed.

(** An instance: alice, who created room 10000, destroys it while bob is a
    member. *)
Lemma destroyRoom_by_owner_witness :
  let w := world (run two_members initial) in
  let r := on_message 1 (frame_of "destroy" (destroy_msg (JString "alice")))
             zero w in
  rooms w !! "10000" = Some [1; 2] ∧
  count_to is_roomDestroyed 2 (sent r) = 1 ∧
  is_open (world r) 2 = false ∧
  rooms (world r) !! "10000" = None.
Proof.
  intros w r.
  destruct (destroyRoom_by_owner 1
    (frame_of "destroy" (destroy_msg (JString "alice"))) zero
    (destroy_msg (JString "alice")) w "10000" [1; 2] (JString "alice"))
    as (_ & Hsend & _ & Hclosed & _ & _ & Hgone & _);
    [crunch ..|].
  split; [crunch|].
  split; [apply (Hsend 2); [apply list_elem_of_further, list_elem_of_here
                           | crunch]|].
  split; [apply (Hclosed 2), list_elem_of_further, list_elem_of_here|].
  exact Hgone.
Defined.

(** C1 as stated fails: in a reachable state a member whose handle is no
    longer open is sent no [roomDestroyed] message. *)
Lemma destroyRoom_by_owner_counterexample :
  ¬ (∀ ws rawMsg x msg w R l O,
       reachable w →
       parsed rawMsg = Some msg →
       action msg = JString "destroyRoom" →
       bound_to w ws R →
       rooms w !! R = Some l →
       roomOwners w !! R = Some O →
       userId msg = O →
       ∀ c, c ∈ l →
            count_to is_roomDestroyed c
              (sent (on_message ws rawMsg x w)) = 1).
Proof.
  intros H.
  specialize (H 1 (frame_of "destroy" (destroy_msg (JString "alice"))) zero
                (destroy_msg (JString "alice"))
                (world (run stale_member initial)) "10000" [1; 2]
                (JString "alice")).
  lapply H; [clear H; intros H|exists stale_member; reflexivity].
  do 6 (lapply H; [clear H; intros H|crunch]).
  specialize (H 2 (list_elem_of_further _ _ _ (list_elem_of_here _ _))).
  vm_compute in H. discriminate.
Qed.

(** ** C2: destroy by someone else *)

(** C2: a [destroyRoom] action whose [userId] differs from the recorded
    owner of the room the session is bound to ([undefined] when there is no
    record) changes nothing, sends nothing and raises no error. *)
Theorem destroyRoom_by_non_owner ws rawMsg x msg w :
  parsed rawMsg = Some msg →
  action msg = JString "destroyRoom" →
  owner_of w (to_string (currentRoom (session_of w ws))) ≠ userId msg →
  let r := on_message ws rawMsg x w in
  world r = w ∧ sent r = [] ∧ value r = Some Completed.
Proof.
  intros Hp Ha Ho r. subst r.
  by rewrite (on_message_destroy_refused _ _ _ _ _ Hp Ha Ho).
Qed.

(** An instance: bob tries to destroy alice's room. *)
Lemma destroyRoom_by_non_owner_witness :
  let w := world (run two_members initial) in
  let r := on_message 2 (frame_of "destroy" (destroy_msg (JString "bob")))
             zero w in
  owner_of w "10000" = JString "alice" ∧
  world r = w ∧ sent r = [] ∧ value r = Some Completed.
Proof.
  intros w r. split; [crunch|].
  apply (destroyRoom_by_non_owner 2
    (frame_of "destroy" (destroy_msg (JString "bob"))) zero
    (destroy_msg (JString "bob")) w); crunch.
Defined.

(** ** C3: the [message] action *)




(** ** C5: the [create] action *)



(** ** C10: actions on a session whose room is gone *)

(** C10: when the session of [ws] is bound to a room identifier that has no
    entry in [rooms], a [message], [deleteFile], [clearChat] or
    [destroyRoom] action never lets an exception leave the handler, sends
    nothing and changes nothing (the two maps, the sessions and the state
    of every handle, that of [ws] included).  For the three broadcasts the
    [forEach] call fails (on [undefined], or on the inherited member when
    the identifier names one) and the failure is caught and logged.
    [destroyRoom] is ignored outright when the owner test
    [roomOwners[currentRoom] === userId] fails, as it always does when the
    read yields an inherited member, and fails the same caught way when it
    passes. *)
Theorem stale_room_is_harmless ws rawMsg x msg w :
  parsed rawMsg = Some msg →
  truthy (currentRoom (session_of w ws)) = true →
  rooms w !! to_string (currentRoom (session_of w ws)) = None →
  action msg = JString "message" ∨ action msg = JString "deleteFile" ∨
  action msg = JString "clearChat" ∨ action msg = JString "destroyRoom" →
  let r := on_message ws rawMsg x w in
  world r = w ∧ sent r = [] ∧ value r ≠ Some Uncaught ∧
  is_open (world r) ws = is_open w ws ∧
  (action msg ≠ JString "destroyRoom" → value r = Some ErrorLogged) ∧
  (action msg = JString "destroyRoom" →
     value r =
     Some (if bool_decide
                (owner_of w (to_string (currentRoom (session_of w ws)))
                 = userId msg)
           then ErrorLogged else Completed)).
Proof.
  intros Hp Ht Hl Ha r. subst r. unfold on_message, try_catch.
  destruct Ha as [Ha|[Ha|[Ha|Ha]]].
  - rewrite (handle_message _ _ _ _ _ Hp Ha Ht).
    unfold message_branch. rewrite bind_members_none by done.
    cbn. rewrite Ha. split_and!; done.
  - rewrite (handle_deleteFile _ _ _ _ _ Hp Ha Ht).
    unfold deleteFile_branch. rewrite bind_members_none by done.
    cbn. rewrite Ha. split_and!; done.
  - rewrite (handle_clearChat _ _ _ _ _ Hp Ha Ht).
    unfold clearChat_branch. rewrite bind_members_none by done.
    cbn. rewrite Ha. split_and!; done.
  - rewrite (handle_destroyRoom _ _ _ _ _ Hp Ha Ht).
    case_bool_decide as Ho.
    + rewrite destroyRoom_branch_throws by done. cbn. split_and!; done.
    + rewrite destroyRoom_branch_refused by done. cbn. split_and!; done.
Qed.

(** An instance: alice's room code was reused and destroyed by bob; her
    next message is dropped. *)
Lemma stale_room_is_harmless_witness :
  let w := world (run orphaned initial) in
  let r := on_message 1 (frame_of "hi" (chat_msg (JString "alice") "hi"))
             zero w in
  rooms w !! "10000" = None ∧ is_open w 1 = true ∧
  world r = w ∧ sent r = [] ∧ value r = Some ErrorLogged.
Proof.
  intros w r.
  destruct (stale_room_is_harmless 1
    (frame_of "hi" (chat_msg (JString "alice") "hi")) zero
    (chat_msg (JString "alice") "hi") w)
    as (Hw & Hs & _ & _ & Hv & _); [crunch ..| |].
  { left. reflexivity. }
  split; [crunch|]. split; [crunch|]. split; [exact Hw|].
  split; [exact Hs|]. apply Hv. discriminate.
Defined.

(** ** C4: the [join] action *)

(** What [join] does, for a name that is a room or is not the name of an
    inherited member: the session is bound to the room and user named by
    the frame; a missing room is created empty and without owner record;
    the handle is appended to the member list; the join notice is sent to
    the open entries of the list other than the joiner, in list order, and
    never to the joiner. *)
Lemma join_room ws rawMsg x msg w :
  parsed rawMsg = Some msg →
  action msg = JString "join" →
  let k := to_string (room msg) in
  let l0 := default [] (rooms w !! k) in
  let r := on_message ws rawMsg x w in
  (rooms w !! k = None → inherited k = false) →
  value r = Some Completed ∧
  rooms (world r) = <[k := l0 ++ [ws]]> (rooms w) ∧
  roomOwners (world r) = roomOwners w ∧
  session_of (world r) ws =
    {| currentRoom := room msg; currentUser := userId msg |} ∧
  not_open (world r) = not_open w ∧
  sent r =
    map (λ c, (c, System (room msg)
                    (to_string (userId msg) +:+ " has joined the chat")))
        (filter (λ c, c ≠ ws ∧ is_open w c) l0) ∧
  count_to any_payload ws (sent r) = 0.
Proof.
  intros Hp Ha k l0 r Hplain. subst r. unfold on_message, try_catch.
  rewrite (handle_join _ _ _ _ _ Hp Ha), join_branch_run by done.
  fold k l0. cbn [world sent value rooms roomOwners not_open].
  split_and!; try done.
  - unfold session_of; cbn. by rewrite lookup_insert_eq.
  - rewrite count_to_map. cbn. rewrite occurrences_filter.
    by rewrite decide_False by tauto.
Qed.

(** A room without owner record cannot be destroyed by a [destroyRoom]
    action that carries a [userId]. *)
Lemma ownerless_room_kept ws rawMsg x msg w :
  parsed rawMsg = Some msg →
  action msg = JString "destroyRoom" →
  roomOwners w !! to_string (currentRoom (session_of w ws)) = None →
  userId msg ≠ JUndefined →
  on_message ws rawMsg x w = MkRun w [] (Some Completed).
Proof.
  intros Hp Ha Ho Hu. apply (on_message_destroy_refused _ _ _ _ _ Hp Ha).
  unfold owner_of. rewrite Ho. destruct (inherited _); congruence.
Qed.

(** C4 (the code at the failing input): ann joins the room "lobby", which
    does not exist and is created without owner record; a [destroyRoom]
    frame that carries no [userId] then passes the owner test
    ([undefined === undefined]) and destroys the room. *)
Theorem ownerless_room_destroyed :
  let w := world (run [join_by 1 "lobby" (JString "ann")] initial) in
  let r := on_message 1 (frame_of "destroy" (destroy_msg JUndefined)) zero w in
  rooms initial !! "lobby" = None ∧
  rooms w !! "lobby" = Some [1] ∧
  roomOwners w !! "lobby" = None ∧
  rooms (world r) !! "lobby" = None ∧
  sent r = [(1, RoomDestroyed (JString "lobby")
                  "Room lobby has been destroyed by undefined")] ∧
  is_open (world r) 1 = false.
Proof. crunch. Qed.

(** ** Steps of a run *)

Lemma react_value ev w : ∃ o, value (react ev w) = Some o.
Proof.
  destruct ev as [ws rawMsg x|ws]; cbn [react].
  - unfold on_message, try_catch. cbn. eauto.
  - rewrite bind_modify. unfold on_close, no_catch. cbn. eauto.
Qed.

(** The state after a run: the run goes on after an event unless an
    exception left its handler. *)
Lemma run_cons_world ev evs w :
  world (run (ev :: evs) w) =
  match value (react ev w) with
  | Some Uncaught => world (react ev w)
  | _ => world (run evs (world (react ev w)))
  end.
Proof.
  cbn [run]. unfold mbind, M_bind.
  destruct (react_value ev w) as [o Ho]. rewrite Ho. by destruct o.
Qed.

(** The [message] handler catches every exception. *)
Lemma run_cons_inbound ws rawMsg x evs w :
  world (run (Inbound ws rawMsg x :: evs) w) =
  world (run evs (world (react (Inbound ws rawMsg x) w))).
Proof.
  rewrite run_cons_world. cbn [react]. unfold on_message, try_catch.
  cbn [value]. by destruct (value (handle ws rawMsg x w)).
Qed.

Lemma world_react_inbound ws rawMsg x w :
  world (react (Inbound ws rawMsg x) w) = world (handle ws rawMsg x w).
Proof. reflexivity. Qed.

Lemma world_react_disconnect ws w :
  world (react (Disconnect ws) w) = world (close_body ws (mark_closed ws w)).
Proof. cbn [react]. by rewrite bind_modify. Qed.

Lemma message_branch_world cur rawMsg w :
  world (message_branch cur rawMsg w) = w.
Proof.
  destruct (rooms w !! to_string cur) as [l|] eqn:Hl.
  - by rewrite (message_branch_run _ _ l).
  - unfold message_branch. by rewrite bind_members_none.
Qed.

Lemma deleteFile_branch_world cur msg w :
  world (deleteFile_branch cur msg w) = w.
Proof.
  destruct (rooms w !! to_string cur) as [l|] eqn:Hl.
  - by rewrite (deleteFile_branch_run _ _ l).
  - unfold deleteFile_branch. by rewrite bind_members_none.
Qed.

Lemma clearChat_branch_world cur msg w :
  world (clearChat_branch cur msg w) = w.
Proof.
  destruct (rooms w !! to_string cur) as [l|] eqn:Hl.
  - by rewrite (clearChat_branch_run _ _ l).
  - unfold clearChat_branch. by rewrite bind_members_none.
Qed.

Lemma close_body_roomOwners ws w :
  roomOwners (world (close_body ws w)) = roomOwners w.
Proof.
  apply close_body_frame.
Qed.

(** ** C6: the owner record *)

(** C6 (as amended): one event changes the owner record of a room code [k]
    in two ways only.  A [create] action that generates [k] assigns it the
    [userId] of the action, also when [k] already names a live room with
    another owner (no collision check).  A [destroyRoom] action that passes
    the owner test on a session bound to [k] removes it together with the
    room entry.  Every other event ([join], [message], [deleteFile],
    [clearChat], a refused or failing [destroyRoom], an unparsable frame, a
    disconnect) leaves it as it is. *)
Theorem owner_record_changes ev w k :
  let w' := world (react ev w) in
  roomOwners w' !! k = roomOwners w !! k ∨
  (∃ ws rawMsg x msg,
     ev = Inbound ws rawMsg x ∧ parsed rawMsg = Some msg ∧
     action msg = JString "create" ∧ room_code x = k ∧
     roomOwners w' !! k = Some (userId msg) ∧ rooms w' !! k = Some [ws]) ∨
  (∃ ws rawMsg x msg l,
     ev = Inbound ws rawMsg x ∧ parsed rawMsg = Some msg ∧
     action msg = JString "destroyRoom" ∧ bound_to w ws k ∧
     rooms w !! k = Some l ∧ owner_of w k = userId msg ∧
     roomOwners w' !! k = None ∧ rooms w' !! k = None).
Proof.
  intros w'. subst w'. destruct ev as [ws rawMsg x|ws].
  2: { left. by rewrite world_react_disconnect, close_body_roomOwners. }
  rewrite world_react_inbound.
  destruct (parsed rawMsg) as [msg|] eqn:Hp.
  2: { left. unfold handle, JSON_parse. by rewrite Hp. }
  rewrite (handle_unfold _ _ _ _ _ Hp).
  set (cur := currentRoom (session_of w ws)).
  destruct (strict_eq (action msg) (JString "create")) eqn:E1.
  { apply bool_decide_eq_true in E1. rewrite create_branch_run.
    cbn [world roomOwners rooms].
    destruct (decide (room_code x = k)) as [<-|Hne].
    - right; left. exists ws, rawMsg, x, msg.
      by rewrite !lookup_insert_eq.
    - left. by rewrite lookup_insert_ne. }
  destruct (strict_eq (action msg) (JString "join")) eqn:E2.
  { left. destruct (join_branch_frame ws msg w) as (Ho & _). by rewrite Ho. }
  destruct (strict_eq (action msg) (JString "message") && truthy cur) eqn:E3.
  { left. by rewrite message_branch_world. }
  destruct (strict_eq (action msg) (JString "deleteFile") && truthy cur) eqn:E4.
  { left. by rewrite deleteFile_branch_world. }
  destruct (strict_eq (action msg) (JString "clearChat") && truthy cur) eqn:E5.
  { left. by rewrite clearChat_branch_world. }
  destruct (strict_eq (action msg) (JString "destroyRoom") && truthy cur) eqn:E6.
  2: { by left. }
  apply andb_true_iff in E6 as [E6 Ht]. apply bool_decide_eq_true in E6.
  destruct (decide (owner_of w (to_string cur) = userId msg)) as [Ho|Ho].
  2: { left. by rewrite destroyRoom_branch_refused. }
  destruct (rooms w !! to_string cur) as [l|] eqn:Hl.
  2: { left. by rewrite destroyRoom_branch_throws. }
  rewrite (destroyRoom_branch_run _ _ l) by done.
  cbn [world roomOwners rooms].
  destruct (decide (to_string cur = k)) as [<-|Hne].
  - right; right. exists ws, rawMsg, x, msg, l.
    by rewrite !lookup_delete_eq.
  - left. by rewrite lookup_delete_ne.
Qed.

(** C6 as stated fails: a second [create] that draws the code of a live
    room replaces its owner record. *)
Lemma owner_record_counterexample :
  ¬ (∀ ev w k O,
       reachable w →
       roomOwners w !! k = Some O →
       let w' := world (react ev w) in
       roomOwners w' !! k = Some O ∨
       (roomOwners w' !! k = None ∧ rooms w' !! k = None)).
Proof.
  intros H.
  specialize (H (create_by 2 "bob")
                (world (run [create_by 1 "alice"] initial)) "10000"
                (JString "alice")).
  lapply H; [clear H; intros H|exists [create_by 1 "alice"]; reflexivity].
  lapply H; [clear H; intros H|crunch].
  vm_compute in H. destruct H as [H|[H _]]; discriminate.
Qed.

(** ** C9: joins to a freshly created room *)

Lemma react_join_members k ev w l :
  is_join_to k ev →
  rooms w !! k = Some l →
  rooms (world (react ev w)) !! k = Some (l ++ [subject ev]).
Proof.
  destruct ev as [ws rawMsg x|ws]; [|done].
  intros (msg & Hp & Ha & <-) Hl. rewrite world_react_inbound.
  rewrite (handle_join _ _ _ _ _ Hp Ha).
  by apply join_branch_frame.
Qed.

Lemma run_cons_join k ev evs w :
  is_join_to k ev →
  world (run (ev :: evs) w) = world (run evs (world (react ev w))).
Proof.
  destruct ev as [ws rawMsg x|ws]; [|done]. intros _.
  apply run_cons_inbound.
Qed.

(** A sequence of joins to one room appends the joining handles to its
    member list, one entry per join, in the order of the joins. *)
Lemma joins_append k evs : ∀ w l,
  rooms w !! k = Some l →
  Forall (is_join_to k) evs →
  rooms (world (run evs w)) !! k = Some (l ++ map subject evs).
Proof.
  induction evs as [|ev evs IH]; intros w l Hl Hj.
  - cbn. by rewrite app_nil_r.
  - apply Forall_cons in Hj as [Hev Hevs].
    rewrite (run_cons_join k) by done.
    rewrite (IH _ (l ++ [subject ev]));
      [|by apply react_join_members|done].
    cbn [map]. by rewrite <- app_assoc.
Qed.

(** C9 (as amended): after a [create] by [ws] and any sequence of joins to
    the new room, the member list is [ws] followed by the joining handles,
    one entry per join and in the order of the joins; its size is the
    number of joins plus one.  A handle appears once for each join it
    issued (the list is not kept free of duplicates). *)
Theorem members_after_joins ws rawMsg x msg w evs :
  parsed rawMsg = Some msg →
  action msg = JString "create" →
  Forall (is_join_to (room_code x)) evs →
  let created := world (on_message ws rawMsg x w) in
  ∃ l, rooms (world (run evs created)) !! room_code x = Some l ∧
       l = ws :: map subject evs ∧
       length l = S (length evs) ∧
       ∀ c, occurrences c l =
            occurrences c (map subject evs) + (if decide (ws = c) then 1 else 0).
Proof.
  intros Hp Ha Hj created. exists (ws :: map subject evs).
  split_and!; try done.
  - rewrite (joins_append _ _ _ [ws]); [done| |done].
    subst created. unfold on_message, try_catch.
    rewrite (handle_create _ _ _ _ _ Hp Ha), create_branch_run.
    cbn [world rooms]. by rewrite lookup_insert_eq.
  - cbn. by rewrite length_map.
  - intros c. unfold occurrences. rewrite filter_cons.
    case_decide; cbn [length]; lia.
Qed.

(** An instance: alice creates a room, bob and carol join it. *)
Lemma members_after_joins_witness :
  let evs := [join_by 2 "10000" (JString "bob");
              join_by 3 "10000" (JString "carol")] in
  let created :=
    world (on_message 1 (frame_of "create" (create_msg (JString "alice")))
             zero initial) in
  Forall (is_join_to (room_code zero)) evs ∧
  rooms (world (run evs created)) !! "10000" = Some [1; 2; 3].
Proof.
  intros evs created.
  assert (Hj : Forall (is_join_to (room_code zero)) evs).
  { repeat constructor.
    - exists (join_msg (JString "10000") (JString "bob")). crunch.
    - exists (join_msg (JString "10000") (JString "carol")). crunch. }
  split; [exact Hj|].
  destruct (members_after_joins 1
    (frame_of "create" (create_msg (JString "alice"))) zero
    (create_msg (JString "alice")) initial evs) as (l & Hl & -> & _);
    [crunch | crunch | exact Hj |].
  exact Hl.
Defined.

(** C9 as stated fails: a connection that joins the room twice is listed
    twice. *)
Lemma members_after_joins_counterexample :
  ¬ (∀ ws rawMsg x msg w evs l,
       parsed rawMsg = Some msg →
       action msg = JString "create" →
       Forall (is_join_to (room_code x)) evs →
       rooms (world (run evs (world (on_message ws rawMsg x w))))
         !! room_code x = Some l →
       length l = S (length evs) ∧ NoDup l).
Proof.
  intros H.
  specialize (H 1 (frame_of "create" (create_msg (JString "alice"))) zero
                (create_msg (JString "alice")) initial
                [join_by 2 "10000" (JString "bob");
                 join_by 2 "10000" (JString "bob")]
                [1; 2; 2]).
  do 2 (lapply H; [clear H; intros H|crunch]).
  lapply H; [clear H; intros H|].
  2: { repeat constructor;
       exists (join_msg (JString "10000") (JString "bob")); crunch. }
  lapply H; [clear H; intros [_ H]|crunch].
  apply NoDup_cons in H as [_ H]. apply NoDup_cons in H as [H _].
  apply H. apply list_elem_of_here.
Qed.

(** ** C7: who a broadcast is sent to *)




(** ** C8: disconnect *)




(** * Further properties of the handlers *)

(** ** Decimal printing *)

Section Decimal.
Local Open Scope Z_scope.

Lemma append_nil (t : string) : EmptyString +:+ t = t.
Proof. reflexivity. Qed.

Lemma append_cons c (s t : string) : String c s +:+ t = String c (s +:+ t).
Proof. reflexivity. Qed.

Lemma append_assoc (t u v : string) : (t +:+ u) +:+ v = t +:+ (u +:+ v).
Proof.
  induction t as [|c t IH]; [done|]. by rewrite !append_cons, IH.
Qed.

Lemma length_append (t u : string) :
  String.length (t +:+ u) = (String.length t + String.length u)%nat.
Proof.
  induction t as [|c t IH]; [done|].
  rewrite append_cons. cbn [String.length]. by rewrite IH.
Qed.

(** [decimal] puts the digits of [n] in front of the accumulator; reading
    them back from a running value [a] shifts [a] and adds [n]. *)
Lemma decimal_reads_back fuel : ∀ n acc,
  0 ≤ n < 10 ^ Z.of_nat fuel → (0 < fuel)%nat →
  ∃ s, decimal fuel n acc = s +:+ acc ∧ s ≠ EmptyString ∧
       ∀ a rest, numeric_value_from a (s +:+ rest) =
                 numeric_value_from
                   (a * 10 ^ Z.of_nat (String.length s) + n) rest.
Proof.
  induction fuel as [|fuel IH]; intros n acc Hn Hf; [lia|].
  pose proof (Z.div_mod n 10 ltac:(lia)) as Hdm.
  pose proof (Z.mod_pos_bound n 10 ltac:(lia)) as Hm.
  cbn [decimal]. destruct (n <? 10) eqn:Hlt.
  - apply Z.ltb_lt in Hlt.
    exists (String (digit_char (n mod 10)) EmptyString).
    split; [done|]. split; [done|]. intros a rest.
    rewrite append_cons, append_nil. cbn [numeric_value_from String.length].
    rewrite digit_value_char by lia.
    f_equal. rewrite Z.mod_small by lia. change (10 ^ Z.of_nat 1) with 10. lia.
  - apply Z.ltb_ge in Hlt.
    assert (Hfuel : (0 < fuel)%nat).
    { destruct fuel; [|lia]. change (10 ^ Z.of_nat 1) with 10 in Hn. lia. }
    assert (Hq : 0 ≤ n / 10 < 10 ^ Z.of_nat fuel).
    { split; [apply Z.div_pos; lia|].
      apply Z.div_lt_upper_bound; [lia|].
      rewrite Nat2Z.inj_succ, Z.pow_succ_r in Hn by lia. lia. }
    destruct (IH (n / 10) (String (digit_char (n mod 10)) acc) Hq Hfuel)
      as (s' & Hs' & Hne & Hread).
    exists (s' +:+ String (digit_char (n mod 10)) EmptyString).
    split; [|split].
    + by rewrite Hs', append_assoc, append_cons, append_nil.
    + destruct s'; done.
    + intros a rest.
      rewrite append_assoc, Hread, append_cons, append_nil.
      cbn [numeric_value_from].
      rewrite digit_value_char by lia. f_equal.
      rewrite length_append. cbn [String.length].
      rewrite Nat2Z.inj_add, Z.pow_add_r by lia.
      change (10 ^ Z.of_nat 1) with 10. lia.
Qed.

Lemma Number_toString_fuel n :
  0 ≤ n → n < 10 ^ Z.of_nat (S (Z.to_nat (Z.log2 n))).
Proof.
  intros Hn. rewrite Nat2Z.inj_succ, Z2Nat.id by apply Z.log2_nonneg.
  destruct (Z.eq_dec n 0) as [->|Hne]; [done|].
  pose proof (Z.log2_spec n ltac:(lia)) as [_ Hlt].
  eapply Z.lt_le_trans; [exact Hlt|].
  apply Z.pow_le_mono_l. pose proof (Z.log2_nonneg n). lia.
Qed.

End Decimal.

Section UploadNameFacts.
Local Open Scope Z_scope.

Lemma append_nil_r (s : string) : s +:+ EmptyString = s.
Proof. induction s as [|c s IH]; [done|]. by rewrite append_cons, IH. Qed.

(** [n.toString()] is a non-empty string of decimal digits that reads back
    as [n]. *)
Lemma Number_toString_reads_back n :
  0 ≤ n →
  Number_toString n ≠ EmptyString ∧
  ∀ a, numeric_value_from a (Number_toString n) =
       Some (a * 10 ^ Z.of_nat (String.length (Number_toString n)) + n).
Proof.
  intros Hn. unfold Number_toString.
  destruct (decimal_reads_back (S (Z.to_nat (Z.log2 n))) n EmptyString)
    as (s & Hs & Hne & Hread).
  { split; [done|]. by apply Number_toString_fuel. }
  { lia. }
  rewrite Hs, append_nil_r. split; [done|]. intros a.
  specialize (Hread a EmptyString). by rewrite append_nil_r in Hread.
Qed.

Lemma Number_toString_inj n1 n2 :
  0 ≤ n1 → 0 ≤ n2 → Number_toString n1 = Number_toString n2 → n1 = n2.
Proof.
  intros H1 H2 Heq.
  destruct (Number_toString_reads_back n1 H1) as [_ R1].
  destruct (Number_toString_reads_back n2 H2) as [_ R2].
  specialize (R1 0). specialize (R2 0). rewrite Heq, R2 in R1.
  injection R1. lia.
Qed.

(** Two digit strings followed by a dash and a remainder agree only when
    the digit strings and the remainders agree. *)
Lemma digits_dash_inj s1 : ∀ s2 a b v1 v2 r1 r2,
  numeric_value_from a s1 = Some v1 →
  numeric_value_from b s2 = Some v2 →
  s1 +:+ String "-" r1 = s2 +:+ String "-" r2 →
  s1 = s2 ∧ r1 = r2.
Proof.
  induction s1 as [|c s1 IH]; intros s2 a b v1 v2 r1 r2 P1 P2 Heq.
  - destruct s2 as [|c2 s2].
    + rewrite !append_nil in Heq. by injection Heq.
    + rewrite append_nil, append_cons in Heq. injection Heq as <- _.
      cbn in P2. discriminate.
  - destruct s2 as [|c2 s2].
    + rewrite append_nil, append_cons in Heq. injection Heq as -> _.
      cbn in P1. discriminate.
    + rewrite !append_cons in Heq. injection Heq as <- Heq.
      cbn [numeric_value_from] in P1, P2.
      destruct (digit_value c) as [d|]; [|discriminate].
      destruct (IH _ _ _ _ _ _ _ P1 P2 Heq) as [-> ->]. done.
Qed.

Lemma append_inv_tail (s1 : string) : ∀ s2 t,
  s1 +:+ t = s2 +:+ t → s1 = s2.
Proof.
  assert (Hlen : ∀ (u t : string), u +:+ t = t → u = EmptyString).
  { intros u t Hu. apply (f_equal String.length) in Hu.
    rewrite length_append in Hu. destruct u; [done|]. cbn in Hu. lia. }
  induction s1 as [|c s1 IH]; intros s2 t Heq.
  - rewrite append_nil in Heq. symmetry. by apply (Hlen s2 t).
  - destruct s2 as [|c2 s2].
    + rewrite append_nil in Heq. by apply (Hlen _ t) in Heq.
    + rewrite !append_cons in Heq. injection Heq as -> Heq.
      by rewrite (IH _ _ Heq).
Qed.

Lemma round53_below n B :
  0 ≤ n → n ≤ (2 ^ 53 - 1) * B → 0 < B → round53 n < 2 ^ 53 * B.
Proof.
  intros Hn Hb HB. pose proof (round53_upper n Hn). nia.
Qed.

Lemma random_suffix_range x :
  valid_unit_double x → 0 ≤ random_suffix x ≤ 1000000.
Proof.
  intros [[Hm0 Hm1] [He0 He1]]. unfold random_suffix, Math_round.
  set (e := exponent x) in *. set (m := significand x) in *.
  assert (HE : 2 ^ e = 2 ^ 53 * 2 ^ (e - 53)).
  { rewrite <- Z.pow_add_r by lia. f_equal. lia. }
  assert (HT : 0 < 2 ^ (e - 53)) by (apply Z.pow_pos_nonneg; lia).
  assert (Hp0 : 0 ≤ round53 (m * 1000000)) by (apply round53_nonneg; lia).
  assert (Hp1 : round53 (m * 1000000) < 2 ^ 53 * 1000000).
  { apply round53_below; lia. }
  rewrite Z.pow_add_r by lia. change (2 ^ 1) with 2.
  split.
  - apply Z.div_pos; lia.
  - apply Z.lt_succ_r. apply Z.div_lt_upper_bound; [lia|]. nia.
Qed.

End UploadNameFacts.

(** ** The upload file name *)

(** X1: the random part of an upload name, [Math.round(Math.random() * 1e6)],
    lies between 0 and 1000000, both ends included (it has up to seven
    digits: a draw close enough to 1 is rounded up to 1000000). *)
Theorem upload_suffix_bounds x :
  valid_unit_double x → (0 ≤ random_suffix x ≤ 1000000)%Z.
Proof. apply random_suffix_range. Qed.

(** The largest draw below 1 gives the suffix 1000000. *)
Lemma upload_suffix_bounds_witness :
  let x := MkDouble (2 ^ 53 - 1) 53 in
  valid_unit_double x ∧ random_suffix x = 1000000%Z ∧
  (0 ≤ random_suffix x ≤ 1000000)%Z.
Proof.
  intros x.
  assert (Hx : valid_unit_double x) by (vm_compute; intuition discriminate).
  split; [exact Hx|]. split; [crunch|].
  exact (upload_suffix_bounds x Hx).
Defined.

(** X2: two uploads with the same extension get the same file name exactly
    when they happen in the same millisecond and draw the same random
    suffix; nothing else in the name tells them apart. *)
Theorem upload_filename_collision now1 now2 x1 x2 ext :
  (0 ≤ now1)%Z → (0 ≤ now2)%Z →
  valid_unit_double x1 → valid_unit_double x2 →
  upload_filename now1 x1 ext = upload_filename now2 x2 ext ↔
  now1 = now2 ∧ random_suffix x1 = random_suffix x2.
Proof.
  intros Hn1 Hn2 Hx1 Hx2. split.
  - unfold upload_filename. intros Heq.
    apply append_inv_tail in Heq.
    destruct (Number_toString_reads_back now1 Hn1) as [_ R1].
    destruct (Number_toString_reads_back now2 Hn2) as [_ R2].
    destruct (digits_dash_inj _ _ _ _ _ _ _ _ (R1 0%Z) (R2 0%Z) Heq)
      as [Hnow Hsuf].
    split.
    + by apply Number_toString_inj.
    + apply Number_toString_inj; [apply random_suffix_range ..|]; done.
  - intros [-> Hs]. unfold upload_filename. by rewrite Hs.
Qed.

(** An instance: the draws 0 and one half in the same millisecond. *)
Lemma upload_filename_collision_witness :
  let x1 := MkDouble 0 53 in
  let x2 := MkDouble (2 ^ 52) 53 in
  upload_filename 1700000000000 x1 ".png" = "1700000000000-0.png" ∧
  upload_filename 1700000000000 x2 ".png" = "1700000000000-500000.png" ∧
  (upload_filename 1700000000000 x1 ".png" =
   upload_filename 1700000000000 x2 ".png" ↔
   1700000000000%Z = 1700000000000%Z ∧ random_suffix x1 = random_suffix x2).
Proof.
  intros x1 x2. split; [crunch|]. split; [crunch|].
  apply (upload_filename_collision 1700000000000 1700000000000 x1 x2 ".png");
    vm_compute; intuition discriminate.
Defined.

(** ** One handler invocation, by cases *)

(** What one invocation of the [try] body amounts to. *)
Lemma handle_cases ws rawMsg x w :
  let cur := currentRoom (session_of w ws) in
  let r := handle ws rawMsg x w in
  (∃ msg, parsed rawMsg = Some msg ∧ action msg = JString "create" ∧
          r = create_branch ws msg x w) ∨
  (∃ msg, parsed rawMsg = Some msg ∧ action msg = JString "join" ∧
          r = join_branch ws msg w) ∨
  (∃ msg l p, parsed rawMsg = Some msg ∧
              action msg ≠ JString "create" ∧ action msg ≠ JString "join" ∧
              truthy cur = true ∧ rooms w !! to_string cur = Some l ∧
              r = MkRun w (map (λ c, (c, p)) (filter (λ c, is_open w c) l))
                    (Some tt)) ∨
  (∃ msg l, parsed rawMsg = Some msg ∧
            action msg = JString "destroyRoom" ∧ truthy cur = true ∧
            owner_of w (to_string cur) = userId msg ∧
            rooms w !! to_string cur = Some l ∧
            r = destroyRoom_branch cur msg w) ∨
  (world r = w ∧ sent r = []).
Proof.
  intros cur r. subst r.
  destruct (parsed rawMsg) as [msg|] eqn:Hp.
  2: { do 4 right. unfold handle, JSON_parse. by rewrite Hp. }
  rewrite (handle_unfold _ _ _ _ _ Hp). fold cur.
  destruct (strict_eq (action msg) (JString "create")) eqn:E1.
  { left. apply bool_decide_eq_true in E1. by exists msg. }
  destruct (strict_eq (action msg) (JString "join")) eqn:E2.
  { right; left. apply bool_decide_eq_true in E2. by exists msg. }
  apply bool_decide_eq_false in E1, E2.
  destruct (truthy cur) eqn:Ht.
  2: { do 4 right. by rewrite !andb_false_r. }
  rewrite !andb_true_r.
  destruct (rooms w !! to_string cur) as [l|] eqn:Hl.
  - destruct (strict_eq (action msg) (JString "message")) eqn:E3.
    { do 2 right; left. eexists msg, l, _. split_and!; [done..|].
      by apply message_branch_run. }
    destruct (strict_eq (action msg) (JString "deleteFile")) eqn:E4.
    { do 2 right; left. eexists msg, l, _. split_and!; [done..|].
      by apply deleteFile_branch_run. }
    destruct (strict_eq (action msg) (JString "clearChat")) eqn:E5.
    { do 2 right; left. eexists msg, l, _. split_and!; [done..|].
      by apply clearChat_branch_run. }
    destruct (strict_eq (action msg) (JString "destroyRoom")) eqn:E6.
    2: { by do 4 right. }
    apply bool_decide_eq_true in E6.
    destruct (decide (owner_of w (to_string cur) = userId msg)) as [Ho|Ho].
    + do 3 right; left. by exists msg, l.
    + do 4 right. by rewrite destroyRoom_branch_refused.
  - do 4 right.
    destruct (strict_eq (action msg) (JString "message")).
    { unfold message_branch. by rewrite bind_members_none. }
    destruct (strict_eq (action msg) (JString "deleteFile")).
    { unfold deleteFile_branch. by rewrite bind_members_none. }
    destruct (strict_eq (action msg) (JString "clearChat")).
    { unfold clearChat_branch. by rewrite bind_members_none. }
    destruct (strict_eq (action msg) (JString "destroyRoom")); [|done].
    destruct (decide (owner_of w (to_string cur) = userId msg)) as [Ho|Ho].
    + by rewrite destroyRoom_branch_throws.
    + by rewrite destroyRoom_branch_refused.
Qed.

Lemma sent_react_inbound ws rawMsg x w :
  sent (react (Inbound ws rawMsg x) w) = sent (handle ws rawMsg x w).
Proof. reflexivity. Qed.

Lemma session_of_mark_closed c ws w :
  session_of (mark_closed c w) ws = session_of w ws.
Proof. reflexivity. Qed.

(** A property kept by every event is kept by every run. *)
Lemma run_invariant (P : World → Prop) (Q : Event → Prop) :
  (∀ ev w, Q ev → P w → P (world (react ev w))) →
  ∀ evs w, Forall Q evs → P w → P (world (run evs w)).
Proof.
  intros Hstep evs. induction evs as [|ev evs IH]; intros w HQ HP; [done|].
  apply Forall_cons in HQ as [Hev Hevs]. rewrite run_cons_world.
  pose proof (Hstep ev w Hev HP) as H1.
  destruct (value (react ev w)) as [[| |]|]; auto.
Qed.

Lemma Number_toString_nonempty n : Number_toString n ≠ EmptyString.
Proof.
  unfold Number_toString. cbn [decimal].
  assert (Hacc : ∀ fuel m acc,
            acc ≠ EmptyString → decimal fuel m acc ≠ EmptyString).
  { induction fuel as [|fuel IH]; intros m acc Hacc; [done|].
    cbn [decimal]. destruct (m <? 10)%Z; [done|]. by apply IH. }
  destruct (n <? 10)%Z; [done|]. by apply Hacc.
Qed.

Lemma room_code_truthy x : truthy (JString (room_code x)) = true.
Proof.
  cbn [truthy]. rewrite bool_decide_eq_false_2; [done|].
  apply Number_toString_nonempty.
Qed.

(** ** Frames that are dropped *)

(** X3: a frame that [JSON.parse] rejects (or that parses to [null]) is
    dropped: the error is caught and logged, nothing is sent, and the state,
    the connection's own handle included, is left as it was. *)
Theorem unparsable_frame_dropped ws rawMsg x w :
  parsed rawMsg = None →
  on_message ws rawMsg x w = MkRun w [] (Some ErrorLogged).
Proof.
  intros Hp. unfold on_message, try_catch, handle, JSON_parse.
  by rewrite Hp.
Qed.

Lemma unparsable_frame_dropped_witness :
  let w := world (run two_members initial) in
  let junk := {| raw := "{oops"; parsed := None |} in
  on_message 2 junk zero w = MkRun w [] (Some ErrorLogged) ∧
  is_open w 2 = true.
Proof.
  intros w junk. split; [|crunch].
  by apply unparsable_frame_dropped.
Defined.

(** X4: a frame whose [action] is none of the six known tags does nothing
    at all, and no error is logged for it. *)
Theorem unknown_action_ignored ws rawMsg x msg w :
  parsed rawMsg = Some msg →
  action msg ∉ [JString "create"; JString "join"; JString "message";
                JString "deleteFile"; JString "clearChat";
                JString "destroyRoom"] →
  on_message ws rawMsg x w = MkRun w [] (Some Completed).
Proof.
  intros Hp Ha. unfold on_message, try_catch.
  rewrite (handle_unfold _ _ _ _ _ Hp). unfold strict_eq.
  rewrite !bool_decide_eq_false_2
    by (intros E; apply Ha; rewrite E; set_solver).
  done.
Qed.

Lemma unknown_action_ignored_witness :
  let w := world (run two_members initial) in
  on_message 2 (frame_of "ping" (other_msg "ping")) zero w =
  MkRun w [] (Some Completed).
Proof.
  intros w. apply unknown_action_ignored with (msg := other_msg "ping").
  - reflexivity.
  - vm_compute. intros H.
    repeat (apply elem_of_cons in H as [H|H]; [discriminate|]).
    by apply not_elem_of_nil in H.
Defined.

(** X5: on a session that is not bound ([currentRoom] is [null] or another
    falsy value), [message], [deleteFile], [clearChat] and [destroyRoom] are
    ignored without error: nothing is sent and nothing changes. *)
Theorem unbound_session_ignored ws rawMsg x msg w :
  parsed rawMsg = Some msg →
  action msg ≠ JString "create" → action msg ≠ JString "join" →
  truthy (currentRoom (session_of w ws)) = false →
  on_message ws rawMsg x w = MkRun w [] (Some Completed).
Proof.
  intros Hp Hc Hj Hu. unfold on_message, try_catch.
  by rewrite (handle_unbound _ _ _ _ _ Hp Hc Hj Hu).
Qed.

Lemma unbound_session_ignored_witness :
  on_message 7 (frame_of "hi" (chat_msg (JString "eve") "hi")) zero initial =
  MkRun initial [] (Some Completed).
Proof.
  apply unbound_session_ignored with (msg := chat_msg (JString "eve") "hi");
    crunch.
Defined.

(** ** The file and clear notices *)





(** ** What the handlers never do *)

(** X8: apart from the [roomCreated] reply of [create], the [message]
    handler never calls [send] on a handle that is not open, nor on a handle
    outside the member list of the room concerned (the room named by the
    frame for [join], the room the session is bound to for the other
    actions). *)
Theorem sends_reach_open_members_only ws rawMsg x msg w d :
  parsed rawMsg = Some msg →
  action msg ≠ JString "create" →
  d ∈ sent (on_message ws rawMsg x w) →
  let k := if strict_eq (action msg) (JString "join")
           then to_string (room msg)
           else to_string (currentRoom (session_of w ws)) in
  is_open w d.1 = true ∧ d.1 ∈ default [] (rooms w !! k).
Proof.
  intros Hp Hc Hd k. subst k.
  change (sent (on_message ws rawMsg x w)) with (sent (handle ws rawMsg x w))
    in Hd.
  destruct (handle_cases ws rawMsg x w)
    as [(m & Hm & Ha & Hr)|[(m & Hm & Ha & Hr)
       |[(m & l & p & Hm & _ & Hj & Ht & Hl & Hr)
       |[(m & l & Hm & Ha & Ht & Ho & Hl & Hr)|[_ Hs]]]]].
  - congruence.
  - assert (m = msg) as -> by congruence.
    rewrite Hr in Hd.
    destruct (join_branch_cases ws msg w) as [Hj|(_ & _ & Hj)];
      rewrite Hj in Hd; cbn [sent] in Hd;
      [|by apply not_elem_of_nil in Hd].
    rewrite Ha.
    apply list_elem_of_fmap in Hd as (c & -> & Hc').
    apply list_elem_of_filter in Hc' as [[_ Hopen] Hin]. cbn.
    split; [by destruct (is_open w c)|done].
  - assert (m = msg) as -> by congruence.
    rewrite Hr in Hd. cbn [sent] in Hd.
    apply list_elem_of_fmap in Hd as (c & -> & Hc').
    apply list_elem_of_filter in Hc' as [Hopen Hin]. cbn [fst].
    unfold strict_eq. rewrite bool_decide_eq_false_2 by done. rewrite Hl.
    split; [by destruct (is_open w c)|done].
  - assert (m = msg) as -> by congruence.
    rewrite Hr, (destroyRoom_branch_run _ _ l) in Hd by done.
    cbn [sent] in Hd. unfold strict_eq.
    rewrite bool_decide_eq_false_2 by (rewrite Ha; discriminate). rewrite Hl.
    apply list_elem_of_fmap in Hd as (c & -> & Hc').
    apply elem_of_first_open in Hc' as [Hin Hopen]. cbn.
    split; [by apply is_open_true|done].
  - rewrite Hs in Hd. by apply not_elem_of_nil in Hd.
Qed.

(** An instance: bob's handle is closed but still listed; alice's message
    goes to alice only. *)
Lemma sends_reach_open_members_only_witness :
  let w := world (run stale_member initial) in
  let f := frame_of "hi" (chat_msg (JString "alice") "hi") in
  rooms w !! "10000" = Some [1; 2] ∧ is_open w 2 = false ∧
  sent (on_message 1 f zero w) = [(1, Raw "hi")] ∧
  is_open w 1 = true ∧ 1 ∈ default [] (rooms w !! "10000").
Proof.
  intros w f. split; [crunch|]. split; [crunch|]. split; [crunch|].
  apply (sends_reach_open_members_only 1 f zero
           (chat_msg (JString "alice") "hi") w (1, Raw "hi")).
  - crunch.
  - crunch.
  - vm_compute. apply list_elem_of_here.
Defined.

(** X9: the [message] handler closes connections only in a [destroyRoom]
    that passes the owner test on a room of the registry, where it closes
    the members of that room; every other frame (malformed, unknown,
    refused, failing) leaves the state of every handle as it was. *)
Theorem only_destroy_closes ws rawMsg x w :
  let r := on_message ws rawMsg x w in
  not_open (world r) = not_open w ∨
  (∃ msg l,
     parsed rawMsg = Some msg ∧ action msg = JString "destroyRoom" ∧
     owner_of w (to_string (currentRoom (session_of w ws))) = userId msg ∧
     rooms w !! to_string (currentRoom (session_of w ws)) = Some l ∧
     not_open (world r) = list_to_set l ∪ not_open w).
Proof.
  intros r. subst r.
  change (world (on_message ws rawMsg x w)) with (world (handle ws rawMsg x w)).
  destruct (handle_cases ws rawMsg x w)
    as [(m & Hm & Ha & Hr)|[(m & Hm & Ha & Hr)
       |[(m & l & p & Hm & _ & _ & Ht & Hl & Hr)
       |[(m & l & Hm & Ha & Ht & Ho & Hl & Hr)|[Hw _]]]]].
  - left. by rewrite Hr, create_branch_run.
  - left. rewrite Hr. apply join_branch_frame.
  - left. by rewrite Hr.
  - right. exists m, l. rewrite Hr, (destroyRoom_branch_run _ _ l) by done.
    done.
  - left. by rewrite Hw.
Qed.

(** X10: a session changes only through a [create] or [join] frame on its
    own connection, which binds it to the generated code, respectively to
    the [room] of the frame, and to the [userId] of the frame.  No other
    frame, no frame on another connection, no destroy and no disconnect
    touches it: the members of a destroyed room stay bound to the removed
    identifier. *)
Theorem session_changes ev w c :
  let w' := world (react ev w) in
  session_of w' c = session_of w c ∨
  (∃ rawMsg x msg,
     ev = Inbound c rawMsg x ∧ parsed rawMsg = Some msg ∧
     ((action msg = JString "create" ∧
       session_of w' c = {| currentRoom := JString (room_code x);
                            currentUser := userId msg |}) ∨
      (action msg = JString "join" ∧
       session_of w' c = {| currentRoom := room msg;
                            currentUser := userId msg |}))).
Proof.
  intros w'. subst w'. destruct ev as [ws rawMsg x|ws].
  2: { left. rewrite world_react_disconnect. unfold session_of.
       destruct (close_body_frame ws (mark_closed ws w)) as (_ & -> & _).
       done. }
  rewrite world_react_inbound.
  destruct (handle_cases ws rawMsg x w)
    as [(m & Hm & Ha & Hr)|[(m & Hm & Ha & Hr)
       |[(m & l & p & Hm & _ & _ & Ht & Hl & Hr)
       |[(m & l & Hm & Ha & Ht & Ho & Hl & Hr)|[Hw _]]]]].
  - rewrite Hr, create_branch_run. cbn [world].
    destruct (decide (ws = c)) as [->|Hne].
    + right. exists rawMsg, x, m. split_and!; [done..|]. left.
      split; [done|]. unfold session_of; cbn. by rewrite lookup_insert_eq.
    + left. unfold session_of; cbn. by rewrite lookup_insert_ne.
  - rewrite Hr. unfold session_of.
    destruct (join_branch_frame ws m w) as (_ & _ & -> & _).
    destruct (decide (ws = c)) as [->|Hne].
    + right. exists rawMsg, x, m. split_and!; [done..|]. right.
      split; [done|]. by rewrite lookup_insert_eq.
    + left. by rewrite lookup_insert_ne.
  - left. by rewrite Hr.
  - left. by rewrite Hr, (destroyRoom_branch_run _ _ l).
  - left. by rewrite Hw.
Qed.

(** X11: an entry of [rooms] disappears only through a [destroyRoom] that
    passes the owner test on a session bound to it.  In particular a room
    whose last member has disconnected stays in the registry with an empty
    member list. *)
Theorem room_entry_kept ev w k l :
  rooms w !! k = Some l →
  let w' := world (react ev w) in
  is_Some (rooms w' !! k) ∨
  (∃ ws rawMsg x msg,
     ev = Inbound ws rawMsg x ∧ parsed rawMsg = Some msg ∧
     action msg = JString "destroyRoom" ∧ bound_to w ws k ∧
     owner_of w k = userId msg ∧ rooms w' !! k = None).
Proof.
  intros Hk w'. subst w'. destruct ev as [ws rawMsg x|ws].
  2: { left. rewrite world_react_disconnect.
       destruct (close_body_frame ws (mark_closed ws w)) as (_ & _ & _ & _ & H).
       apply H. cbn [rooms mark_closed]. by rewrite Hk. }
  rewrite world_react_inbound.
  destruct (handle_cases ws rawMsg x w)
    as [(m & Hm & Ha & Hr)|[(m & Hm & Ha & Hr)
       |[(m & l' & p & Hm & _ & _ & Ht & Hl & Hr)
       |[(m & l' & Hm & Ha & Ht & Ho & Hl & Hr)|[Hw _]]]]].
  - left. rewrite Hr, create_branch_run. cbn.
    apply lookup_insert_is_Some'. right. by rewrite Hk.
  - left. rewrite Hr.
    destruct (join_branch_frame ws m w) as (_ & _ & _ & Hne & Heq & _).
    destruct (decide (k = to_string (room m))) as [->|Hk'].
    + by rewrite (Heq _ Hk).
    + by rewrite (Hne _ Hk'), Hk.
  - left. rewrite Hr. cbn [world]. by rewrite Hk.
  - rewrite Hr, (destroyRoom_branch_run _ _ l') by done. cbn [world rooms].
    destruct (decide (to_string (currentRoom (session_of w ws)) = k))
      as [<-|Hne].
    + right. exists ws, rawMsg, x, m. by rewrite lookup_delete_eq.
    + left. by rewrite lookup_delete_ne, Hk.
  - left. by rewrite Hw, Hk.
Qed.

(** An instance: alice creates a room and disconnects; the room stays,
    empty, and so does its owner record. *)
Lemma room_entry_kept_witness :
  let w := world (run [create_by 1 "alice"] initial) in
  let w' := world (react (Disconnect 1) w) in
  rooms w !! "10000" = Some [1] ∧
  rooms w' !! "10000" = Some [] ∧
  roomOwners w' !! "10000" = Some (JString "alice").
Proof.
  intros w w'.
  destruct (room_entry_kept (Disconnect 1) w "10000" [1])
    as [_|(ws & f & x & m & Hev & _)]; [crunch| |discriminate].
  crunch.
Defined.

(** ** Invariants of the registry *)

Lemma owner_has_room_step ev w :
  (∀ k, is_Some (roomOwners w !! k) → is_Some (rooms w !! k)) →
  ∀ k, is_Some (roomOwners (world (react ev w)) !! k) →
       is_Some (rooms (world (react ev w)) !! k).
Proof.
  intros Hinv k. destruct ev as [ws rawMsg x|ws].
  2: { rewrite world_react_disconnect.
       destruct (close_body_frame ws (mark_closed ws w))
         as (-> & _ & _ & _ & H).
       intros Ho. apply H. by apply Hinv. }
  rewrite world_react_inbound.
  destruct (handle_cases ws rawMsg x w)
    as [(m & Hm & Ha & Hr)|[(m & Hm & Ha & Hr)
       |[(m & l' & p & Hm & _ & _ & Ht & Hl & Hr)
       |[(m & l' & Hm & Ha & Ht & Ho & Hl & Hr)|[Hw _]]]]].
  - rewrite Hr, create_branch_run. cbn [world rooms roomOwners].
    rewrite !lookup_insert_is_Some'. intros [->|Ho]; [by left|].
    right. by apply Hinv.
  - rewrite Hr.
    destruct (join_branch_frame ws m w) as (-> & _ & _ & Hne & Heq & _).
    intros Ho. apply Hinv in Ho as [l Hk].
    destruct (decide (k = to_string (room m))) as [->|Hk'].
    + by rewrite (Heq _ Hk).
    + by rewrite (Hne _ Hk'), Hk.
  - rewrite Hr. cbn [world]. apply Hinv.
  - rewrite Hr, (destroyRoom_branch_run _ _ l') by done.
    cbn [world rooms roomOwners]. rewrite !lookup_delete_is_Some.
    intros [Hne Hk]. split; [done|]. by apply Hinv.
  - rewrite Hw. apply Hinv.
Qed.

(** X12: in every state the server can reach, a room identifier that has
    an owner record also has an entry in [rooms]: the two maps are created
    and deleted together, and nothing else writes [roomOwners]. *)
Theorem owner_has_room w k :
  reachable w →
  is_Some (roomOwners w !! k) → is_Some (rooms w !! k).
Proof.
  intros [evs <-]. revert k.
  apply (run_invariant
    (λ w, ∀ k, is_Some (roomOwners w !! k) → is_Some (rooms w !! k))
    (λ _, True)).
  - intros ev w _. apply owner_has_room_step.
  - by apply Forall_true.
  - intros k. cbn. rewrite lookup_empty. by intros [? ?].
Qed.

Lemma owner_has_room_witness :
  let w := world (run two_members initial) in
  reachable w ∧ roomOwners w !! "10000" = Some (JString "alice") ∧
  is_Some (rooms w !! "10000").
Proof.
  intros w.
  assert (Hr : reachable w) by (exists two_members; reflexivity).
  assert (Ho : roomOwners w !! "10000" = Some (JString "alice")) by crunch.
  split; [exact Hr|]. split; [exact Ho|].
  apply (owner_has_room w "10000" Hr). rewrite Ho. by eexists.
Defined.

(** X13: when every [Math.random()] is a number of [0, 1), every owner
    record the server ever holds is filed under a five-digit code between
    10000 and 99999.  A room that [join] created under any other name never
    gets an owner record. *)
Theorem owner_keys_are_codes evs k O :
  Forall well_drawn evs →
  roomOwners (world (run evs initial)) !! k = Some O →
  String.length k = 5 ∧
  (∃ n, numeric_value k = Some n ∧ 10000 ≤ n ≤ 99999)%Z.
Proof.
  intros Hev. revert k O.
  apply (run_invariant
    (λ w, ∀ k O, roomOwners w !! k = Some O →
                 String.length k = 5 ∧
                 (∃ n, numeric_value k = Some n ∧ 10000 ≤ n ≤ 99999)%Z)
    well_drawn); [|done|].
  2: { intros k O. cbn. by rewrite lookup_empty. }
  clear evs Hev. intros ev w Hx Hinv k O.
  destruct ev as [ws rawMsg x|ws].
  2: { rewrite world_react_disconnect, close_body_roomOwners. apply Hinv. }
  rewrite world_react_inbound.
  destruct (handle_cases ws rawMsg x w)
    as [(m & Hm & Ha & Hr)|[(m & Hm & Ha & Hr)
       |[(m & l' & p & Hm & _ & _ & Ht & Hl & Hr)
       |[(m & l' & Hm & Ha & Ht & Ho & Hl & Hr)|[Hw _]]]]].
  - rewrite Hr, create_branch_run. cbn [world roomOwners].
    destruct (decide (room_code x = k)) as [<-|Hne].
    + intros _. pose proof (room_number_range x Hx) as Hrange.
      destruct (Number_toString_five_digits _ Hrange) as [Hlen Hval].
      split; [done|]. by exists (room_number x).
    + rewrite lookup_insert_ne by done. apply Hinv.
  - rewrite Hr.
    destruct (join_branch_frame ws m w) as (-> & _). apply Hinv.
  - rewrite Hr. cbn [world]. apply Hinv.
  - rewrite Hr, (destroyRoom_branch_run _ _ l') by done.
    cbn [world roomOwners]. intros Hd.
    apply lookup_delete_Some in Hd as [_ Hd]. by apply (Hinv k O).
  - rewrite Hw. apply Hinv.
Qed.

Lemma owner_keys_are_codes_witness :
  Forall well_drawn two_members ∧
  roomOwners (world (run two_members initial)) !! "10000"
    = Some (JString "alice") ∧
  String.length "10000" = 5 ∧
  (∃ n, numeric_value "10000" = Some n ∧ 10000 ≤ n ≤ 99999)%Z.
Proof.
  assert (Hd : Forall well_drawn two_members).
  { repeat constructor; vm_compute; intuition discriminate. }
  split; [exact Hd|]. split; [crunch|].
  apply (owner_keys_are_codes two_members "10000" (JString "alice") Hd).
  crunch.
Defined.

(** ** How the operations compose *)

(** The state right after a disconnect of [ws]. *)
Lemma world_after_disconnect ws w :
  let cur := currentRoom (session_of w ws) in
  world (react (Disconnect ws) w) =
  match rooms w !! to_string cur with
  | Some l =>
      if truthy cur
      then set_rooms <[to_string cur := filter (λ c, c ≠ ws) l]>
             (mark_closed ws w)
      else mark_closed ws w
  | None => mark_closed ws w
  end.
Proof.
  intros cur. rewrite world_react_disconnect, close_body_run.
  rewrite session_of_mark_closed. fold cur. cbn [rooms mark_closed].
  destruct (rooms w !! to_string cur);
    [by destruct (truthy cur)
    |by destruct (truthy cur && inherited (to_string cur))].
Qed.

(** X14: a connection that is a member of room [A] and joins another room
    is not removed from [A]; when it then disconnects, only the room it is
    bound to is cleaned, so its handle, no longer open, stays in the member
    list of [A]. *)
Theorem rebinding_leaves_stale_entry ws rawMsg x msg w A l :
  parsed rawMsg = Some msg →
  action msg = JString "join" →
  rooms w !! A = Some l → ws ∈ l →
  to_string (room msg) ≠ A →
  let w1 := world (react (Inbound ws rawMsg x) w) in
  let w2 := world (react (Disconnect ws) w1) in
  rooms w1 !! A = Some l ∧ rooms w2 !! A = Some l ∧ is_open w2 ws = false.
Proof.
  intros Hp Ha HA Hin Hne w1 w2.
  assert (H1 : rooms w1 !! A = Some l).
  { subst w1. rewrite world_react_inbound.
    rewrite (handle_join _ _ _ _ _ Hp Ha).
    destruct (join_branch_frame ws msg w) as (_ & _ & _ & Hk & _).
    by rewrite Hk. }
  assert (Hs : currentRoom (session_of w1 ws) = room msg).
  { subst w1. rewrite world_react_inbound.
    rewrite (handle_join _ _ _ _ _ Hp Ha). unfold session_of.
    destruct (join_branch_frame ws msg w) as (_ & _ & -> & _).
    by rewrite lookup_insert_eq. }
  subst w2. rewrite world_after_disconnect, Hs.
  split; [done|].
  destruct (rooms w1 !! to_string (room msg)) as [l1|];
    [destruct (truthy (room msg))|].
  - cbn [rooms set_rooms mark_closed]. rewrite lookup_insert_ne by done.
    split; [done|]. apply is_open_false. cbn. set_solver.
  - split; [done|]. apply is_open_false. cbn. set_solver.
  - split; [done|]. apply is_open_false. cbn. set_solver.
Qed.

Lemma rebinding_leaves_stale_entry_witness :
  let w := world (run two_members initial) in
  let f := frame_of "join" (join_msg (JString "lobby") (JString "bob")) in
  let w2 := world (react (Disconnect 2) (world (react (Inbound 2 f zero) w))) in
  rooms w !! "10000" = Some [1; 2] ∧
  rooms w2 !! "10000" = Some [1; 2] ∧ is_open w2 2 = false.
Proof.
  intros w f w2.
  destruct (rebinding_leaves_stale_entry 2 f zero
              (join_msg (JString "lobby") (JString "bob")) w "10000" [1; 2])
    as (_ & H2 & H3); [crunch | crunch | crunch | | crunch |].
  { apply list_elem_of_further, list_elem_of_here. }
  split; [crunch|]. split; [exact H2 | exact H3].
Defined.

(** X15: a [join] whose [room] is missing or otherwise falsy ([undefined],
    [null], [false], the empty string) still appends the handle to the
    list filed under the printed value ("undefined", "null", ...), but
    leaves the session unbound: every later frame on the connection other
    than [create] and [join] is ignored, and the [close] handler does not
    remove the handle from that list. *)
Theorem join_without_room ws rawMsg x msg w :
  parsed rawMsg = Some msg →
  action msg = JString "join" →
  truthy (room msg) = false →
  let k := to_string (room msg) in
  let w1 := world (on_message ws rawMsg x w) in
  rooms w1 !! k = Some (default [] (rooms w !! k) ++ [ws]) ∧
  (∀ nextMsg y msg2,
     parsed nextMsg = Some msg2 →
     action msg2 ≠ JString "create" → action msg2 ≠ JString "join" →
     on_message ws nextMsg y w1 = MkRun w1 [] (Some Completed)) ∧
  on_close ws w1 = MkRun w1 [] (Some Completed).
Proof.
  intros Hp Ha Hf k w1.
  assert (Hw1 : w1 = world (join_branch ws msg w)).
  { subst w1. unfold on_message, try_catch.
    by rewrite (handle_join _ _ _ _ _ Hp Ha). }
  pose proof (falsy_not_inherited _ Hf) as Hi.
  rewrite join_branch_run in Hw1 by done. cbn [world] in Hw1.
  assert (Hs : currentRoom (session_of w1 ws) = room msg).
  { rewrite Hw1. unfold session_of; cbn. by rewrite lookup_insert_eq. }
  split_and!.
  - rewrite Hw1. cbn [rooms]. by rewrite lookup_insert_eq.
  - intros nextMsg y msg2 Hp2 Hc Hj. unfold on_message, try_catch.
    rewrite (handle_unbound _ _ _ _ _ Hp2 Hc Hj); [done|]. by rewrite Hs.
  - unfold on_close, no_catch. rewrite close_body_run, Hs, Hf.
    cbn [andb]. by destruct (rooms w1 !! to_string (room msg)).
Qed.

Lemma join_without_room_witness :
  let f := frame_of "join" (join_msg JUndefined (JString "eve")) in
  let w1 := world (on_message 1 f zero initial) in
  rooms w1 !! "undefined" = Some [1] ∧
  on_close 1 w1 = MkRun w1 [] (Some Completed).
Proof.
  intros f w1.
  destruct (join_without_room 1 f zero (join_msg JUndefined (JString "eve"))
              initial) as (H1 & _ & H3); [crunch ..|].
  split; [crunch|exact H3].
Defined.

(** X16: a [create] followed, on the same connection, by a [destroyRoom]
    with the same [userId] completes and removes the code from both maps:
    if the code was free before the [create] the registry is back to what
    it was; if it named a live room (the draw collided), that room is gone
    as well.  The connection's handle is closed, after being sent the
    [roomDestroyed] notice if it was open. *)
Theorem create_then_destroy ws newRoom endRoom x y cm dm w :
  parsed newRoom = Some cm → action cm = JString "create" →
  parsed endRoom = Some dm → action dm = JString "destroyRoom" →
  userId dm = userId cm →
  let code := room_code x in
  let r1 := on_message ws newRoom x w in
  let r2 := on_message ws endRoom y (world r1) in
  value r2 = Some Completed ∧
  rooms (world r2) = delete code (rooms w) ∧
  roomOwners (world r2) = delete code (roomOwners w) ∧
  (rooms w !! code = None → roomOwners w !! code = None →
     rooms (world r2) = rooms w ∧ roomOwners (world r2) = roomOwners w) ∧
  is_open (world r2) ws = false ∧
  map fst (sent r2) = (if is_open w ws then [ws] else []) ∧
  (∀ d, d ∈ sent r2 → is_roomDestroyed d.2 = true).
Proof.
  intros Hc Hca Hd Hda Hu code r1 r2.
  assert (H1 : world r1 = world (create_branch ws cm x w)).
  { subst r1. unfold on_message, try_catch.
    by rewrite (handle_create _ _ _ _ _ Hc Hca). }
  rewrite create_branch_run in H1. cbn [world] in H1.
  set (w1 := world r1) in *.
  assert (Hs : currentRoom (session_of w1 ws) = JString code).
  { rewrite H1. unfold session_of; cbn. by rewrite lookup_insert_eq. }
  assert (Hl : rooms w1 !! to_string (currentRoom (session_of w1 ws))
               = Some [ws]).
  { rewrite Hs, H1. cbn. by rewrite lookup_insert_eq. }
  assert (Ho : owner_of w1 (to_string (currentRoom (session_of w1 ws)))
               = userId dm).
  { rewrite Hs, H1. unfold owner_of; cbn. rewrite lookup_insert_eq.
    by rewrite Hu. }
  assert (Ht : truthy (currentRoom (session_of w1 ws)) = true).
  { rewrite Hs. apply room_code_truthy. }
  assert (H2 : r2 = try_catch (destroyRoom_branch
                       (currentRoom (session_of w1 ws)) dm) w1).
  { subst r2. unfold on_message, try_catch.
    by rewrite (handle_destroyRoom _ _ _ _ _ Hd Hda Ht). }
  unfold try_catch in H2.
  rewrite (destroyRoom_branch_run _ _ [ws] _ Ho Hl) in H2.
  cbn [world sent value] in H2. rewrite Hs in H2. cbn [to_string] in H2.
  rewrite H2. cbn [world sent value rooms roomOwners].
  assert (Hrooms : delete code (rooms w1) = delete code (rooms w)).
  { rewrite H1. cbn. apply delete_insert_eq. }
  assert (Howners : delete code (roomOwners w1) = delete code (roomOwners w)).
  { rewrite H1. cbn. apply delete_insert_eq. }
  assert (Hopen : not_open w1 = not_open w) by (by rewrite H1).
  rewrite Hrooms, Howners, Hopen.
  split_and!; try done.
  - intros Hfr Hfo. by rewrite !delete_id.
  - apply is_open_false. cbn. set_solver.
  - cbn [first_open]. unfold is_open.
    destruct (decide (ws ∈ not_open w)) as [Hin|Hin].
    + by rewrite bool_decide_eq_false_2 by (intros ?; done).
    + by rewrite bool_decide_eq_true_2.
  - intros d Hin. apply list_elem_of_fmap in Hin as (c & -> & _). done.
Qed.

Lemma create_then_destroy_witness :
  let w := world (run [join_by 3 "lobby" (JString "carol")] initial) in
  let r1 := on_message 1 (frame_of "create" (create_msg (JString "alice")))
              zero w in
  let r2 := on_message 1 (frame_of "destroy" (destroy_msg (JString "alice")))
              zero (world r1) in
  rooms (world r1) !! "10000" = Some [1] ∧
  rooms (world r2) = rooms w ∧ roomOwners (world r2) = roomOwners w ∧
  is_open (world r2) 1 = false.
Proof.
  intros w r1 r2.
  destruct (create_then_destroy 1
              (frame_of "create" (create_msg (JString "alice")))
              (frame_of "destroy" (destroy_msg (JString "alice")))
              zero zero (create_msg (JString "alice"))
              (destroy_msg (JString "alice")) w)
    as (_ & _ & _ & Hback & Hclosed & _); [crunch ..|].
  destruct Hback as [Hr Ho]; [crunch ..|].
  split; [crunch|]. split; [exact Hr|]. split; [exact Ho|exact Hclosed].
Defined.






(** X19: whether a [destroyRoom] goes through does not depend on the
    identity under which the connection was bound: the owner record is
    compared with the [userId] of the frame, never with [currentUser].
    With any other value in [currentUser] the handler sends the same
    messages, ends the same way and leaves the same registry and the same
    handles closed. *)
Theorem destroy_ignores_currentUser ws rawMsg x msg w v :
  parsed rawMsg = Some msg →
  action msg = JString "destroyRoom" →
  let r := on_message ws rawMsg x w in
  let r' := on_message ws rawMsg x (set_currentUser ws v w) in
  sent r' = sent r ∧ value r' = value r ∧
  rooms (world r') = rooms (world r) ∧
  roomOwners (world r') = roomOwners (world r) ∧
  not_open (world r') = not_open (world r).
Proof.
  intros Hp Ha r r'. subst r r'. unfold on_message, try_catch.
  set (w' := set_currentUser ws v w).
  assert (Hs : currentRoom (session_of w' ws) = currentRoom (session_of w ws)).
  { subst w'. by rewrite session_of_set_currentUser. }
  set (cur := currentRoom (session_of w ws)) in *.
  destruct (truthy cur) eqn:Ht.
  2: { rewrite !(handle_unbound _ _ _ _ _ Hp); try done;
         try (rewrite Ha; discriminate). by rewrite Hs. }
  rewrite (handle_destroyRoom _ _ _ _ _ Hp Ha Ht).
  rewrite (handle_destroyRoom _ _ _ _ _ Hp Ha) by (by rewrite Hs).
  rewrite Hs. fold cur.
  destruct (decide (owner_of w (to_string cur) = userId msg)) as [Ho|Ho].
  2: { by rewrite !destroyRoom_branch_refused. }
  destruct (rooms w !! to_string cur) as [l|] eqn:Hl.
  - rewrite (destroyRoom_branch_run cur msg l w) by done.
    rewrite (destroyRoom_branch_run cur msg l w') by done. done.
  - rewrite (destroyRoom_branch_throws cur msg w) by done.
    rewrite (destroyRoom_branch_throws cur msg w') by done. done.
Qed.

(** An instance: bob, bound as "bob", destroys alice's room by putting
    "alice" in the frame. *)
Lemma destroy_ignores_currentUser_witness :
  let w := world (run two_members initial) in
  let f := frame_of "destroy" (destroy_msg (JString "alice")) in
  currentUser (session_of w 2) = JString "bob" ∧
  rooms (world (on_message 2 f zero w)) !! "10000" = None ∧
  sent (on_message 2 f zero (set_currentUser 2 (JString "alice") w))
  = sent (on_message 2 f zero w).
Proof.
  intros w f. split; [crunch|]. split; [crunch|].
  apply (destroy_ignores_currentUser 2 f zero
           (destroy_msg (JString "alice")) w (JString "alice")); crunch.
Defined.

(** ** Room names that are members of [Object.prototype] *)

(** X20: a [join] whose [room] is the name of a member of
    [Object.prototype] ("constructor", "toString", "__proto__", ...) and
    not of a room: the session is bound to the name, the guard
    [!rooms[currentRoom]] reads the inherited member and creates nothing,
    [push] fails and the failure is caught and logged; no room, no owner
    record, no send.  The session stays bound to the name, and when the
    connection ends the [close] handler passes its guard on the inherited
    member and fails at [filter], outside any [try]: the error leaves the
    handler. *)
Theorem join_to_inherited_name ws rawMsg x msg w :
  parsed rawMsg = Some msg →
  action msg = JString "join" →
  rooms w !! to_string (room msg) = None →
  inherited (to_string (room msg)) = true →
  let r := on_message ws rawMsg x w in
  value r = Some ErrorLogged ∧ sent r = [] ∧
  rooms (world r) = rooms w ∧ roomOwners (world r) = roomOwners w ∧
  not_open (world r) = not_open w ∧
  session_of (world r) ws =
    {| currentRoom := room msg; currentUser := userId msg |} ∧
  on_close ws (world r) = MkRun (world r) [] (Some Uncaught).
Proof.
  intros Hp Ha Hk Hi r. subst r. unfold on_message, try_catch.
  rewrite (handle_join _ _ _ _ _ Hp Ha), join_branch_throws by done.
  cbn [world sent value].
  assert (Hs : session_of (bind_session ws (room msg) (userId msg) w) ws =
               {| currentRoom := room msg; currentUser := userId msg |}).
  { unfold session_of, bind_session; cbn. by rewrite lookup_insert_eq. }
  split_and!; try done.
  unfold on_close, no_catch. rewrite close_body_run, Hs.
  cbn [currentRoom bind_session rooms]. rewrite Hk, Hi.
  by rewrite (inherited_truthy _ Hi).
Qed.

(** An instance: a first frame that joins "constructor", then the end of
    the connection. *)
Lemma join_to_inherited_name_witness :
  let f := frame_of "join" (join_msg (JString "constructor") (JString "eve")) in
  let r := on_message 1 f zero initial in
  value r = Some ErrorLogged ∧ rooms (world r) = ∅ ∧
  value (on_close 1 (world r)) = Some Uncaught.
Proof.
  intros f r.
  destruct (join_to_inherited_name 1 f zero
              (join_msg (JString "constructor") (JString "eve")) initial)
    as (Hv & _ & Hrooms & _ & _ & _ & Hclose); [crunch ..|].
  split; [exact Hv|]. split; [exact Hrooms|].
  unfold r. by rewrite Hclose.
Defined.
